(** * Mail-merge utility: filename resolver and batch worker

    A shallow embedding of [_clean_filename], [_generate_filename] and
    [_mail_merge_worker] of [auto_pcp_v2.py] ([_clean_filename] is the same
    text in [auto_pcp.py]), and the properties of the specification that
    concern them. *)

From Stdlib Require Import String Ascii QArith Qround Qpower Lqa Sorted.
From stdpp Require Import gmap list sorting.

Local Open Scope N_scope.

(** ** Python values *)

(** A Python [str] is a sequence of Unicode code points.  The code points are
    kept as numbers, so that [str.strip()] has its exact table of white
    space. *)
Definition pystr := list N.

(** An ASCII literal as a [str]. *)
Fixpoint py (s : string) : pystr :=
  match s with
  | EmptyString => []
  | String a s' => N_of_ascii a :: py s'
  end.

Definition chr (a : ascii) : N := N_of_ascii a.

Arguments py : simpl never.
Arguments chr : simpl never.

(** A cell of the data source after [fillna('')]: a string, or a number.  The
    worker only ever looks at a number through [str()], so a number is carried
    as the text [str()] prints for it. *)
Inductive pyval :=
| VStr (s : pystr)
| VNum (repr : pystr).

Definition str (v : pyval) : pystr :=
  match v with
  | VStr s => s
  | VNum repr => repr
  end.

(** One row of [data_source.to_dict('records')]: column name to cell. *)
Abbreviation Record := (gmap pystr pyval).

(** A non-negative [int] in an f-string. *)
Fixpoint digits (u : Decimal.uint) : pystr :=
  match u with
  | Decimal.Nil => []
  | Decimal.D0 u => 0x30 :: digits u
  | Decimal.D1 u => 0x31 :: digits u
  | Decimal.D2 u => 0x32 :: digits u
  | Decimal.D3 u => 0x33 :: digits u
  | Decimal.D4 u => 0x34 :: digits u
  | Decimal.D5 u => 0x35 :: digits u
  | Decimal.D6 u => 0x36 :: digits u
  | Decimal.D7 u => 0x37 :: digits u
  | Decimal.D8 u => 0x38 :: digits u
  | Decimal.D9 u => 0x39 :: digits u
  end.

Definition str_int (n : nat) : pystr := digits (Nat.to_uint n).

(** ** String methods *)

(** [c in chars] for a character. *)
Definition char_in (chars : pystr) (c : N) : bool :=
  existsb (N.eqb c) chars.

(** [Py_UNICODE_ISSPACE]: what [str.strip()] without argument removes. *)
Definition isspace (c : N) : bool :=
  ((0x09 <=? c) && (c <=? 0x0D)) || ((0x1C <=? c) && (c <=? 0x20))
  || (c =? 0x85) || (c =? 0xA0) || (c =? 0x1680)
  || ((0x2000 <=? c) && (c <=? 0x200A))
  || (c =? 0x2028) || (c =? 0x2029) || (c =? 0x202F) || (c =? 0x205F)
  || (c =? 0x3000).

Fixpoint lstrip (p : N -> bool) (s : pystr) : pystr :=
  match s with
  | [] => []
  | c :: s' => if p c then lstrip p s' else s
  end.

Definition rstrip (p : N -> bool) (s : pystr) : pystr :=
  rev (lstrip p (rev s)).

(** [s.strip()] is [strip isspace s]; [s.strip(chars)] is
    [strip (char_in chars) s]. *)
Definition strip (p : N -> bool) (s : pystr) : pystr :=
  rstrip p (lstrip p s).

Definition pystr_eqb (s t : pystr) : bool := bool_decide (s = t).

(** [not s] for a [str]. *)
Definition is_empty (s : pystr) : bool :=
  match s with [] => true | _ => false end.

(** [s.startswith(prefix)]. *)
Fixpoint startswith (prefix s : pystr) : bool :=
  match prefix, s with
  | [], _ => true
  | _ :: _, [] => false
  | a :: prefix', c :: s' => (a =? c) && startswith prefix' s'
  end.

(** [s.endswith(suffix)]. *)
Definition endswith (suffix s : pystr) : bool :=
  startswith (rev suffix) (rev s).

(** [s.replace(old, new)]: the occurrences of [old] are found from the left
    and do not overlap.  [skip] counts the characters of a found occurrence
    that are still to be passed over.  For an empty [old], Python puts [new]
    before every character and at the end. *)
Fixpoint replace_from (skip : nat) (old new s : pystr) : pystr :=
  match s with
  | [] => []
  | c :: s' =>
      match skip with
      | S k => replace_from k old new s'
      | O =>
          if startswith old s
          then new ++ replace_from (Nat.pred (length old)) old new s'
          else c :: replace_from O old new s'
      end
  end.

Definition replace (s old new : pystr) : pystr :=
  match old with
  | [] => new ++ flat_map (fun c => c :: new) s
  | _ :: _ => replace_from O old new s
  end.

(** ** Regular expressions of the source *)

(** The character class of [_clean_filename]: the nine characters
    less-than, greater-than, colon, double quote, slash, backslash, bar,
    question mark and star. *)
Definition invalid_chars : pystr :=
  [chr "<"; chr ">"; chr ":"; 0x22; chr "/"; chr "\"; chr "|"; chr "?"; chr "*"].

(** [re.sub] of that class by an underscore. *)
Definition sub_char (c : N) : N :=
  if char_in invalid_chars c then chr "_" else c.

Definition sub_invalid (s : pystr) : pystr := map sub_char s.

(** [re.findall(r'\{([^}]+)\}', pattern)], as a scan of the pattern from the
    left.  [inside] is [None] outside a candidate and [Some acc] after an
    opening brace, [acc] being the characters read since, last first.  A match
    opens at a brace, takes every character up to the next closing brace, and
    needs at least one; an opening brace inside a candidate is an ordinary
    character of [[^}]].  A brace directly followed by a closing brace, or with
    no closing brace after it, matches nothing. *)
Fixpoint findall_from (inside : option pystr) (pattern : pystr) : list pystr :=
  match pattern with
  | [] => []
  | c :: rest =>
      match inside with
      | None =>
          if c =? chr "{" then findall_from (Some []) rest
          else findall_from None rest
      | Some acc =>
          if c =? chr "}" then
            match acc with
            | [] => findall_from None rest
            | _ :: _ => rev acc :: findall_from None rest
            end
          else findall_from (Some (c :: acc)) rest
      end
  end.

Definition findall (pattern : pystr) : list pystr := findall_from None pattern.

(** ** [_clean_filename] (both versions) *)

Definition _clean_filename (filename : pyval) : pystr :=
  let cleaned := sub_invalid (str filename) in
  let cleaned := strip (char_in (py " .")) cleaned in
  if is_empty cleaned then py "document" else cleaned.

(** ** [_generate_filename] (v2) *)

(** [f'{{{var}}}']. *)
Definition placeholder (var : pystr) : pystr :=
  chr "{" :: var ++ [chr "}"].

(** One turn of the loop over [variables]. *)
Definition substitute (record : Record) (filename var : pystr) : pystr :=
  match record !! var with
  | Some cell =>
      let value := strip isspace (str cell) in
      let value := _clean_filename (VStr value) in
      replace filename (placeholder var) value
  | None => replace filename (placeholder var) (py "Unknown")
  end.

Definition fallback_stem (index : nat) : pystr :=
  py "document_" ++ str_int (index + 1).

(** The body of the [try]; nothing in it raises on a [str] pattern and a
    record of cells, so the [except] branch, which returns the same
    [document_<index+1>], is never entered. *)
Definition _generate_filename (record : Record) (pattern : pystr) (index : nat)
  : pystr :=
  let variables := findall pattern in
  let filename := fold_left (substitute record) variables pattern in
  if is_empty (strip (char_in (py "_")) filename)
     || pystr_eqb (strip isspace filename) []
  then fallback_stem index
  else filename.

(** A stem made of underscores only; the empty stem is one. *)
Definition only_underscores (s : pystr) : Prop :=
  Forall (fun c => c = chr "_") s.

(** ** Patterns made of texts and placeholders *)

(** A pattern as it is written: texts and placeholders in turn. *)
Inductive segment :=
| Text (text : pystr)
| Field (name : pystr).

Definition written (seg : segment) : pystr :=
  match seg with
  | Text text => text
  | Field name => placeholder name
  end.

Definition pattern_of (segs : list segment) : pystr := flat_map written segs.

(** A text without opening brace; a field name that is not empty and holds
    no brace. *)
Definition plain (seg : segment) : Prop :=
  match seg with
  | Text text => Forall (fun c => c <> chr "{") text
  | Field name =>
      name <> [] /\ Forall (fun c => c <> chr "{" /\ c <> chr "}") name
  end.

(** What stands for a segment in the stem: the text itself, the stripped and
    cleaned cell of a field the record has, [Unknown] for a field it
    lacks. *)
Definition filled (record : Record) (seg : segment) : pystr :=
  match seg with
  | Text text => text
  | Field name =>
      match record !! name with
      | Some cell => _clean_filename (VStr (strip isspace (str cell)))
      | None => py "Unknown"
      end
  end.

(** The pattern after the turns of the fields [done]. *)
Definition partly (record : Record) (done : list pystr) (seg : segment)
  : pystr :=
  match seg with
  | Text text => text
  | Field name =>
      if bool_decide (name ∈ done) then filled record seg
      else placeholder name
  end.

(** The names of the fields of a pattern, in turn. *)
Definition fields (segs : list segment) : list pystr :=
  flat_map (fun seg => match seg with Field n => [n] | Text _ => [] end) segs.

(** ** Exceptions and state *)

(** A computation over a state [S] returns a value or raises; a raised
    exception is carried as the text [str(e)], the only thing the worker reads
    of it. *)
Inductive outcome (A : Type) :=
| Returned (a : A)
| Raised (e : pystr).
Arguments Returned {A} a.
Arguments Raised {A} e.

Definition M (S A : Type) : Type := S -> outcome A * S.

#[global] Instance M_ret {S} : MRet (M S) := fun A a st => (Returned a, st).

#[global] Instance M_bind {S} : MBind (M S) := fun A B f m st =>
  match m st with
  | (Returned a, st') => f a st'
  | (Raised e, st') => (Raised e, st')
  end.

Definition raise {S A} (e : pystr) : M S A := fun st => (Raised e, st).

(** [try: body except Exception as e: handler(e)]. *)
Definition try_except {S A} (body : M S A) (handler : pystr -> M S A) : M S A :=
  fun st =>
    match body st with
    | (Returned a, st') => (Returned a, st')
    | (Raised e, st') => handler e st'
    end.

(** [try: body finally: cleanup], for a [cleanup] that does not raise. *)
Definition try_finally {S A} (body : M S A) (cleanup : S -> S) : M S A :=
  fun st => let (r, st') := body st in (r, cleanup st').

(** [try: body except Exception: (log)]. *)
Definition swallow {S} (body : M S unit) : M S unit :=
  try_except body (fun _ => mret tt).

Definition when {S} (b : bool) (body : M S unit) : M S unit :=
  if b then body else mret tt.

(** ** Python floats *)

(** A float is carried as the rational number it is equal to.  An
    operation gives the double nearest to its exact result, a tie going to
    the one with an even significand: 53 bits, the least exponent -1074.  A
    magnitude of 2^1024 or more has no double; none arises here, where no
    value exceeds 100. *)

Section Floats.
Local Open Scope Q_scope.

(** The integer nearest to [x], an even one at a tie. *)
Definition rne (x : Q) : Z :=
  let f := Qfloor x in
  match (x - inject_Z f ?= 1 # 2)%Q with
  | Lt => f
  | Eq => if Z.even f then f else (f + 1)%Z
  | Gt => (f + 1)%Z
  end.

(** For a positive [x], the exponent [l] with [2^l <= x < 2^(l+1)]. *)
Definition ilog2 (x : Q) : Z :=
  let c := (Z.log2 (Qnum x) - Z.log2 (Zpos (Qden x)))%Z in
  if Qle_bool (2 ^ c) x then c else (c - 1)%Z.

(** The double nearest to a positive [x]: [x] is rounded to a multiple of
    [2^e], where [e] leaves 53 bits to the significand and is at least
    -1074. *)
Definition round_abs (x : Q) : Q :=
  let e := Z.max (ilog2 x - 52) (-1074) in
  inject_Z (rne (x / 2 ^ e)) * 2 ^ e.

Definition round64 (x : Q) : Q :=
  match (x ?= 0)%Q with
  | Eq => 0
  | Gt => round_abs x
  | Lt => - round_abs (- x)
  end.

End Floats.

(** ** Settings, environment and messages *)

(** The Tk variables the worker reads. *)
Record Settings := {
  template_path : pystr;
  data_source_path : pystr;
  output_dir : pystr;
  filename_pattern_var : pystr;
  create_word_var : bool;
  create_pdf_var : bool;
  backup_existing_var : bool;
  skip_errors_var : bool;
  open_output_var : bool;
}.

(** The calls of the worker that leave the program, under the names the
    source calls them by.  A path built with [os.path.join(folder, name)] is
    passed as the pair; [os_remove] is the removal of the temporary document
    when it exists.  [_backup_existing_files] and [_open_output_folder] are
    methods of the application that rename files and start the file
    explorer; the first catches what its renames raise, the second whatever
    is raised in it, and then shows an error box of its own. *)
Inductive op :=
| os_makedirs (path : pyval)
| DocxTemplate (path : pystr)
| render (record : Record)
| _backup_existing_files (doc_folder pdf_folder : pyval) (base_filename : pystr)
| save (folder : pyval) (name : pystr)
| convert (doc_folder : pyval) (doc_name : pystr)
          (pdf_folder : pyval) (pdf_name : pystr)
| os_remove (folder : pyval) (name : pystr)
| _open_output_folder.

(** What the worker runs against: pandas ([read_csv] and [read_excel] stand
    for the read, [fillna('')] and [to_dict('records')]), the file system,
    docxtpl and docx2pdf ([perform]), and the clock ([elapsed] is the text of
    the elapsed time with one decimal at the end of the loop).  [render]
    stands for the building of the context, a function of the record, and
    [template_doc.render(context)]. *)
Class Env (World : Type) := {
  read_csv : pystr -> M World (list Record);
  read_excel : pystr -> M World (list Record);
  perform : op -> M World unit;
  elapsed : World -> pystr;
}.

(** What [message_queue.put] receives: the dict with its ['type'] key as the
    constructor.  The progress value is a Python float, or the int 0 or
    100. *)
Inductive message :=
| status (text : pystr)
| progress (value : Q)
| error (text : pystr)
| success (text : pystr).

(** The worker's view of the application: the world, the queue (oldest
    first), the three counters of the run and [is_processing].  The counters
    are locals of the worker; they are kept here so that their values are
    still there when the run is over. *)
Record state (World : Type) := {
  world : World;
  message_queue : list message;
  success_count : nat;
  error_count : nat;
  skipped_count : nat;
  is_processing : bool;
}.
Arguments world {World} _.
Arguments message_queue {World} _.
Arguments success_count {World} _.
Arguments error_count {World} _.
Arguments skipped_count {World} _.
Arguments is_processing {World} _.

(** [run_mail_merge] sets [is_processing] before it starts the thread. *)
Definition initial_state {World} (w : World) : state World :=
  {| world := w; message_queue := []; success_count := 0; error_count := 0;
     skipped_count := 0; is_processing := true |}.

Section Worker.
Context {World : Type} {env : Env World}.

Definition lift {A} (m : M World A) : M (state World) A := fun st =>
  let (r, w) := m (world st) in
  (r, {| world := w; message_queue := message_queue st;
         success_count := success_count st; error_count := error_count st;
         skipped_count := skipped_count st;
         is_processing := is_processing st |}).

Definition put (m : message) : M (state World) unit := fun st =>
  (Returned tt,
   {| world := world st; message_queue := message_queue st ++ [m];
      success_count := success_count st; error_count := error_count st;
      skipped_count := skipped_count st;
      is_processing := is_processing st |}).

Definition set_counts (s e k : nat) : M (state World) unit := fun st =>
  (Returned tt,
   {| world := world st; message_queue := message_queue st;
      success_count := s; error_count := e; skipped_count := k;
      is_processing := is_processing st |}).

Definition get : M (state World) (state World) := fun st => (Returned st, st).

Definition incr_success : M (state World) unit :=
  st ← get; set_counts (success_count st + 1) (error_count st) (skipped_count st).
Definition incr_error : M (state World) unit :=
  st ← get; set_counts (success_count st) (error_count st + 1) (skipped_count st).
Definition incr_skipped : M (state World) unit :=
  st ← get; set_counts (success_count st) (error_count st) (skipped_count st + 1).

Definition finish (st : state World) : state World :=
  {| world := world st;
     message_queue := message_queue st ++ [status (py "Ready")];
     success_count := success_count st; error_count := error_count st;
     skipped_count := skipped_count st; is_processing := false |}.

(** *** The texts of the worker *)

Definition processing_msg (i total_records : nat) : pystr :=
  py "Processing record " ++ str_int (i + 1) ++ py " of "
  ++ str_int total_records ++ py "...".

(** [(i / total_records) * 100]: the true division of two ints gives the
    double nearest to the quotient, and the product with 100 is rounded
    again.  The worker divides only when [total_records] is not 0. *)
Definition percent (i total_records : nat) : Q :=
  round64
    (round64 (inject_Z (Z.of_nat i) / inject_Z (Z.of_nat total_records))
     * 100)%Q.

Definition completion_msg (elapsed_time : pystr) (succeeded errored : nat)
  : pystr :=
  py "Completed in " ++ elapsed_time ++ py "s: " ++ str_int succeeded
  ++ py " successful, " ++ str_int errored ++ py " errors".

(** The four marks before the lines of the result, as the code points the
    source file holds. *)
Definition mark_successful : pystr := [0x201A; 0xFA; 0xD6].
Definition mark_errors : pystr := [0x201A; 0xF9; 0xE5].
Definition mark_skipped : pystr := [0x201A; 0xE8; 0x2260; 0xD4; 0x220F; 0xE8].
Definition mark_time : pystr := [0x201A; 0xE8; 0xB1; 0xD4; 0x220F; 0xE8].

Definition nl : pystr := [0x0A].

Definition result_msg (elapsed_time : pystr) (succeeded errored skipped : nat)
  : pystr :=
  let result_msg := py "Mail merge completed!" ++ nl ++ nl in
  let result_msg :=
    result_msg ++ mark_successful ++ py " Successful: " ++ str_int succeeded
    ++ nl in
  let result_msg :=
    if (0 <? errored)%nat
    then result_msg ++ mark_errors ++ py " Errors: " ++ str_int errored ++ nl
    else result_msg in
  let result_msg :=
    if (0 <? skipped)%nat
    then result_msg ++ mark_skipped ++ py " Skipped: " ++ str_int skipped ++ nl
    else result_msg in
  result_msg ++ mark_time ++ py " Time: " ++ elapsed_time ++ py " seconds".

(** *** One record: lines 1155 to 1217 *)

(** [record.get('DocFolderPath', self.output_dir.get())] and its PDF twin, the
    same two lines in both versions. *)

Definition doc_folder_path (cfg : Settings) (record : Record) : pyval :=
  default (VStr (output_dir cfg)) (record !! py "DocFolderPath").

Definition pdf_folder_path (cfg : Settings) (record : Record) : pyval :=
  default (VStr (output_dir cfg)) (record !! py "PdfFolderPath").

Definition process (cfg : Settings) (i : nat) (record : Record)
  : M World unit :=
  perform (DocxTemplate (template_path cfg));;
  perform (render record);;
  let base_filename :=
    _generate_filename record (filename_pattern_var cfg) i in
  let doc_folder_path := doc_folder_path cfg record in
  let pdf_folder_path := pdf_folder_path cfg record in
  perform (os_makedirs doc_folder_path);;
  when (create_pdf_var cfg) (perform (os_makedirs pdf_folder_path));;
  when (backup_existing_var cfg)
    (perform (_backup_existing_files doc_folder_path pdf_folder_path
                base_filename));;
  doc_path ←
    (if create_word_var cfg
     then perform (save doc_folder_path (base_filename ++ py ".docx"));;
          mret (Some (doc_folder_path, base_filename ++ py ".docx"))
     else mret None);
  when (create_pdf_var cfg)
    (match doc_path with
     | Some (folder, name) =>
         perform (convert folder name pdf_folder_path
                    (base_filename ++ py ".pdf"))
     | None =>
         let folder := VStr (output_dir cfg) in
         let name := py "_temp_" ++ str_int i ++ py ".docx" in
         perform (save folder name);;
         perform (convert folder name pdf_folder_path
                    (base_filename ++ py ".pdf"));;
         swallow (perform (os_remove folder name))
     end).

(** *** The loop over the records: lines 1144 to 1230 *)

Definition attempt (cfg : Settings) (total_records i : nat) (record : Record)
  : M (state World) unit :=
  try_except
    (put (status (processing_msg i total_records));;
     put (progress (percent i total_records));;
     lift (process cfg i record);;
     incr_success)
    (fun e =>
       incr_error;;
       if negb (skip_errors_var cfg) then raise e else incr_skipped).

Fixpoint process_records (cfg : Settings) (total_records i : nat)
    (records : list Record) : M (state World) unit :=
  match records with
  | [] => mret tt
  | record :: rest =>
      attempt cfg total_records i record;;
      process_records cfg total_records (S i) rest
  end.

(** *** [_mail_merge_worker] *)

Definition load_records (cfg : Settings) : M World (list Record) :=
  let data_path := data_source_path cfg in
  if endswith (py ".csv") data_path then read_csv data_path
  else if endswith (py ".xlsx") data_path || endswith (py ".xls") data_path
  then read_excel data_path
  else raise (py "Unsupported data source format").

Definition report (cfg : Settings) : M (state World) unit :=
  st ← get;
  let elapsed_time := elapsed (world st) in
  put (progress 100);;
  put (status (completion_msg elapsed_time (success_count st)
                 (error_count st)));;
  put (success (result_msg elapsed_time (success_count st) (error_count st)
                  (skipped_count st)));;
  when (open_output_var cfg) (swallow (lift (perform _open_output_folder))).

Definition merge (cfg : Settings) : M (state World) unit :=
  put (status (py "Initializing..."));;
  put (progress 0);;
  records ← lift (load_records cfg);
  let total_records := length records in
  if (total_records =? 0)%nat
  then raise (py "No records found in data source")
  else
    lift (perform (os_makedirs (VStr (output_dir cfg))));;
    set_counts 0 0 0;;
    process_records cfg total_records 0 records;;
    report cfg.

Definition _mail_merge_worker (cfg : Settings) : M (state World) unit :=
  try_finally
    (try_except (merge cfg)
       (fun e =>
          put (status (py "Error during mail merge"));;
          put (error (py "Mail merge failed: " ++ e))))
    finish.

(** *** The run seen from outside *)

Definition raised {A} (o : outcome A) : bool :=
  match o with Raised _ => true | Returned _ => false end.

(** What the processing of each record of a batch does, one after the
    other from world [w], and the world it leaves. *)
Fixpoint outcomes (cfg : Settings) (i : nat) (records : list Record)
    (w : World) : list (outcome unit) :=
  match records with
  | [] => []
  | record :: rest =>
      let (o, w') := process cfg i record w in
      o :: outcomes cfg (S i) rest w'
  end.

Fixpoint world_after (cfg : Settings) (i : nat) (records : list Record)
    (w : World) : World :=
  match records with
  | [] => w
  | record :: rest => world_after cfg (S i) rest (snd (process cfg i record w))
  end.

(** The number of records of the batch whose processing raises. *)
Definition failures (cfg : Settings) (records : list Record) (w : World)
  : nat :=
  length (filter (fun o => raised o = true) (outcomes cfg 0 records w)).

(** The index of the first outcome that is an exception. *)
Fixpoint first_failure (os : list (outcome unit)) : option nat :=
  match os with
  | [] => None
  | o :: rest => if raised o then Some 0%nat else S <$> first_failure rest
  end.

(** Where the loop over a batch stops before its end: at the first record
    whose processing raises, unless skip-errors is set. *)
Definition stops_at (cfg : Settings) (i : nat) (records : list Record)
    (w : World) : option nat :=
  if skip_errors_var cfg then None
  else first_failure (outcomes cfg i records w).

(** The number of records the loop attempts, and whether it reaches the end
    of the batch. *)
Definition attempted (cfg : Settings) (records : list Record) (w : World)
  : nat :=
  match stops_at cfg 0 records w with
  | Some j => S j
  | None => length records
  end.

Definition completes (cfg : Settings) (records : list Record) (w : World)
  : bool :=
  match stops_at cfg 0 records w with
  | Some _ => false
  | None => true
  end.

(** The messages of the attempts [i], ..., [i + n - 1]. *)
Definition loop_messages (total_records i n : nat) : list message :=
  flat_map
    (fun j => [status (processing_msg j total_records);
               progress (percent j total_records)])
    (seq i n).

(** The messages that open a run, close a completed run, report an aborted
    run, and end every run. *)
Definition opening : list message :=
  [status (py "Initializing..."); progress 0].

Definition closing (elapsed_time : pystr) (succeeded errored skipped : nat)
  : list message :=
  [progress 100; status (completion_msg elapsed_time succeeded errored);
   success (result_msg elapsed_time succeeded errored skipped)].

Definition failing (e : pystr) : list message :=
  [status (py "Error during mail merge");
   error (py "Mail merge failed: " ++ e)].

Definition ready : list message := [status (py "Ready")].

End Worker.

Arguments opening : simpl never.
Arguments closing : simpl never.
Arguments failing : simpl never.
Arguments ready : simpl never.
Arguments loop_messages : simpl never.

(** The values of the progress events of a queue, in the order of the
    queue. *)
Definition progress_values (queue : list message) : list Q :=
  flat_map (fun m => match m with progress value => [value] | _ => [] end)
    queue.

Definition is_success (m : message) : bool :=
  match m with success _ => true | _ => false end.

(** A terminal summary: the completion status or the result message, for
    some counts and some elapsed time. *)
Definition is_summary (m : message) : Prop :=
  (exists elapsed_time succeeded errored,
     m = status (completion_msg elapsed_time succeeded errored))
  \/ (exists elapsed_time succeeded errored skipped,
        m = success (result_msg elapsed_time succeeded errored skipped)).

(** ** A scripted environment *)

(** The world is the list of the calls made so far, oldest first.  The data
    source holds [file]; the rendering of a record that has a column [fail]
    raises with the text of that cell; every other call succeeds.  The
    elapsed time reads 0.0. *)
Definition scripted_perform (o : op) : M (list op) unit := fun calls =>
  match o with
  | render record =>
      match record !! py "fail" with
      | Some cell => (Raised (str cell), calls ++ [o])
      | None => (Returned tt, calls ++ [o])
      end
  | _ => (Returned tt, calls ++ [o])
  end.

Definition scripted (file : list Record) : Env (list op) :=
  {| read_csv := fun _ calls => (Returned file, calls);
     read_excel := fun _ calls => (Returned file, calls);
     perform := scripted_perform;
     elapsed := fun _ => py "0.0" |}.

(** Every call succeeds. *)
Definition recorder : Env (list op) :=
  {| read_csv := fun _ calls => (Returned [], calls);
     read_excel := fun _ calls => (Returned [], calls);
     perform := fun o calls => (Returned tt, calls ++ [o]);
     elapsed := fun _ => py "0.0" |}.

(** ** Sample inputs *)

Definition default_pattern : pystr := py "{First Name}_{Last Name}".

Definition ann_lee : Record :=
  <[py "First Name" := VStr (py "Ann")]>
    (<[py "Last Name" := VStr (py "Lee")]> ∅).

Definition no_names : Record :=
  <[py "First Name" := VStr (py "")]> (<[py "Last Name" := VStr (py "")]> ∅).

Definition bad_record : Record :=
  <[py "fail" := VStr (py "boom")]> ann_lee.

(** A record that lacks the field [x{y], and a pattern that refers to it
    inside another placeholder. *)
Definition record_y : Record := <[py "y" := VStr (py "V")]> ∅.

Definition nested_pattern : pystr := py "{y} {x{y}".

(** A pattern of plain segments, for a record whose cell [a] is an opening
    brace and which has a field called Unknown. *)
Definition record_brace : Record :=
  <[py "a" := VStr (py "{")]> (<[py "Unknown" := VStr (py "Z")]> ∅).

Definition brace_pattern : list segment :=
  [Field (py "a"); Field (py "b"); Text (py "}"); Field (py "Unknown")].

Definition letter_pattern : list segment :=
  [Text (py "letter_"); Field (py "Middle"); Text (py "_");
   Field (py "First Name"); Field (py "Middle")].

Definition sample_settings (skip_errors : bool) : Settings :=
  {| template_path := py "letter.docx";
     data_source_path := py "patients.csv";
     output_dir := py "out";
     filename_pattern_var := default_pattern;
     create_word_var := true;
     create_pdf_var := true;
     backup_existing_var := true;
     skip_errors_var := skip_errors;
     open_output_var := false |}.

(** A run of the worker in the scripted environment, from an empty list of
    calls. *)
Definition sample_run (skip_errors : bool) (file : list Record)
  : outcome unit * state (list op) :=
  _mail_merge_worker (env := scripted file) (sample_settings skip_errors)
    (initial_state []).

(** * More of the code *)

(** A name [_clean_filename] has nothing to do on: not empty, none of the
    nine characters, neither space nor dot at its ends. *)
Definition clean_name (s : pystr) : Prop :=
  s <> []
  /\ Forall (fun c => char_in invalid_chars c = false) s
  /\ (forall c t, s = c :: t -> char_in (py " .") c = false)
  /\ (forall t c, s = t ++ [c] -> char_in (py " .") c = false).

(** Made of white space only, as [str.strip()] sees it; the empty string is. *)
Definition blank (s : pystr) : Prop := Forall (fun c => isspace c = true) s.

Definition labelled_record : Record :=
  <[py "Doc Name" := VStr (py " Dr. A/B ")]> ann_lee.

(** The data source gives [file], records or an exception; a call for which
    [fault] has a text raises with it, after it is recorded; every other call
    succeeds. *)
Definition faulty (file : outcome (list Record)) (fault : op -> option pystr)
  : Env (list op) :=
  {| read_csv := fun _ calls => (file, calls);
     read_excel := fun _ calls => (file, calls);
     perform := fun o calls =>
       match fault o with
       | Some e => (Raised e, calls ++ [o])
       | None => (Returned tt, calls ++ [o])
       end;
     elapsed := fun _ => py "0.0" |}.

(** Nothing can be removed. *)
Definition no_removal (o : op) : option pystr :=
  match o with
  | os_remove _ _ => Some (py "Permission denied")
  | _ => None
  end.

(** The folder [out] cannot be created; any other can. *)
Definition no_output_dir (o : op) : option pystr :=
  match o with
  | os_makedirs (VStr path) =>
      if pystr_eqb path (py "out") then Some (py "Read-only file system")
      else None
  | _ => None
  end.

(** A record with folders of its own. *)
Definition filed_record : Record :=
  <[py "DocFolderPath" := VStr (py "docs")]>
    (<[py "PdfFolderPath" := VStr (py "pdfs")]> ann_lee).

(** No directory can be created. *)
Definition no_makedirs (o : op) : option pystr :=
  match o with
  | os_makedirs _ => Some (py "Read-only file system")
  | _ => None
  end.

Definition pdf_only_settings (data_path : string) : Settings :=
  {| template_path := py "letter.docx";
     data_source_path := py data_path;
     output_dir := py "out";
     filename_pattern_var := default_pattern;
     create_word_var := false;
     create_pdf_var := true;
     backup_existing_var := false;
     skip_errors_var := false;
     open_output_var := false |}.

(** ** [_monitor_queue] *)

(** What the queue can hold for the monitor: a message of the worker, or a
    dict of type ['warning'], which the monitor knows and nothing puts. *)
Inductive entry :=
| from_worker (m : message)
| warning (text : pystr).

(** The message boxes, by title and text. *)
Inductive dialog :=
| showerror (title text : pystr)
| showinfo (title text : pystr)
| showwarning (title text : pystr).

(** What the monitor writes to: the two Tk variables and the boxes it has
    shown, oldest first.  The box that [_open_output_folder] shows when it
    fails is shown from the worker, and is not among them. *)
Record ui := {
  status_var : pystr;
  progress_var : Q;
  dialogs : list dialog;
}.

(** One turn of the [while True]: the message taken by [get_nowait]. *)
Definition dispatch (u : ui) (x : entry) : ui :=
  match x with
  | from_worker (status text) =>
      {| status_var := text; progress_var := progress_var u;
         dialogs := dialogs u |}
  | from_worker (progress value) =>
      {| status_var := status_var u; progress_var := value;
         dialogs := dialogs u |}
  | from_worker (error text) =>
      {| status_var := status_var u; progress_var := progress_var u;
         dialogs := dialogs u ++ [showerror (py "Error") text] |}
  | from_worker (success text) =>
      {| status_var := status_var u; progress_var := progress_var u;
         dialogs := dialogs u ++ [showinfo (py "Success") text] |}
  | warning text =>
      {| status_var := status_var u; progress_var := progress_var u;
         dialogs := dialogs u ++ [showwarning (py "Warning") text] |}
  end.

(** One poll: the queue is emptied, in order, until [queue.Empty]; the
    [finally] schedules the next poll. *)
Definition _monitor_queue (u : ui) (queue : list entry) : ui :=
  fold_left dispatch queue u.

(** ** [_cleanup_old_logs] *)

(** [s < t] on [str]: by code points, a proper prefix first. *)
Fixpoint str_lt (s t : pystr) : bool :=
  match s, t with
  | _, [] => false
  | [], _ :: _ => true
  | a :: s', b :: t' => (a <? b) || ((a =? b) && str_lt s' t')
  end.

(** [s <= t]. *)
Definition str_le (s t : pystr) : bool := negb (str_lt t s).

(** [l.sort(reverse=True)] on a list of [str]: the list in descending order.
    Strings that compare equal are the same string, so there is one such
    arrangement, whatever the sorting method. *)
Fixpoint insert_reverse (x : pystr) (l : list pystr) : list pystr :=
  match l with
  | [] => [x]
  | y :: l' => if str_le y x then x :: l else y :: insert_reverse x l'
  end.

Fixpoint sort_reverse (l : list pystr) : list pystr :=
  match l with
  | [] => []
  | x :: l' => insert_reverse x (sort_reverse l')
  end.

(** The order of a reverse sort: [x] may stand before [y]. *)
Definition descending (x y : pystr) : Prop := str_le y x = true.

(** The test of the list comprehension. *)
Definition is_log (f : pystr) : bool :=
  startswith (py "mailmerge_") f && endswith (py ".log") f.

(** [log_files[keep_count:]] after the sort, for the names [os.listdir]
    gave. *)
Definition old_logs (keep_count : nat) (names : list pystr) : list pystr :=
  drop keep_count (sort_reverse (filter (fun f => is_log f = true) names)).

(** The log directory as the function sees it: [os_listdir], [os_unlink] for
    [os.remove(os.path.join(log_dir, name))], and [print]. *)
Class LogDir (World : Type) := {
  os_listdir : pystr -> M World (list pystr);
  os_unlink : pystr -> pystr -> M World unit;
  print : pystr -> World -> World;
}.

Section Logs.
Context {World : Type} {dir : LogDir World}.

(** The [for] loop. *)
Fixpoint remove_each (log_dir : pystr) (names : list pystr) : M World unit :=
  match names with
  | [] => mret tt
  | old_log :: rest => os_unlink log_dir old_log;; remove_each log_dir rest
  end.

Definition _cleanup_old_logs (log_dir : pystr) (keep_count : nat)
  : M World unit :=
  try_except
    (names ← os_listdir log_dir;
     remove_each log_dir (old_logs keep_count names))
    (fun e w =>
       (Returned tt, print (py "Warning: Could not cleanup old logs: " ++ e) w)).

End Logs.

(** A directory that holds the names [files]; what has been printed is kept
    beside.  Removing a name that is not there raises. *)
Definition plain_directory : LogDir (list pystr * list pystr) :=
  {| os_listdir := fun _ w => (Returned (fst w), w);
     os_unlink := fun _ name w =>
       if bool_decide (name ∈ fst w)
       then (Returned tt, (filter (fun f => f <> name) (fst w), snd w))
       else (Raised (py "No such file or directory"), w);
     print := fun text w => (fst w, snd w ++ [text]) |}.

Definition sample_directory : list pystr :=
  [py "notes.txt"; py "mailmerge_20240101_090000.log";
   py "mailmerge_20240301_090000.log"; py "mailmerge_20240201_090000.log";
   py "mailmerge_old.txt"].

(** ** The file name of v1 *)

Module V1.

(** [record.get(key, '').strip()]: a number has no [strip], the attribute
    error is [None]. *)
Definition stripped (record : Record) (key : pystr) : option pystr :=
  match default (VStr []) (record !! key) with
  | VStr s => Some (strip isspace s)
  | VNum _ => None
  end.

(** Lines 427 to 433 of [auto_pcp.py]. *)
Definition base_filename (record : Record) (i : nat) : option pystr :=
  first_name ← stripped record (py "First Name");
  last_name ← stripped record (py "Last Name");
  let base_filename :=
    replace (first_name ++ py "_" ++ last_name) (py " ") (py "_") in
  Some (if is_empty base_filename || pystr_eqb base_filename (py "_")
        then fallback_stem i
        else base_filename).

(** ** The worker of v1: lines 347 to 502 of [auto_pcp.py] *)

(** What [root.after(0, ...)] is given: the closure, named by what it will
    do.  The two closures of the loop read [status_msg], [i] and
    [total_records] when Tk runs them, so they carry no value; those of the
    end read variables that no longer change, and carry the text they will
    show. *)
Inductive request :=
| loading_status
| progress_zero
| loop_status
| loop_progress
| progress_full
| completion_status (text : pystr)
| showinfo_success (text : pystr)
| error_status
| showerror_error (text : pystr)
| enable_run_button.

(** What v1 needs beside [Env]: Tk's [root.after], which raises when the
    application is gone; whether the number printed as a text is zero, which
    is what [not] tests on a number; and the text of the attribute error of
    [.strip()] on a record whose name cell is a number, which is only
    logged. *)
Class Host (World : Type) := {
  root_after : request -> M World unit;
  nonzero : pystr -> bool;
  no_strip : Record -> pystr;
}.

(** The world, the counter of the loop and [is_processing]. *)
Record state (World : Type) := {
  world : World;
  success_count : nat;
  is_processing : bool;
}.
Arguments world {World} _.
Arguments success_count {World} _.
Arguments is_processing {World} _.

(** [try: body finally: cleanup], for a [cleanup] that can raise: its
    exception replaces the outcome of the body. *)
Definition try_finally_raising {S A} (body : M S A) (cleanup : M S unit)
  : M S A :=
  fun st =>
    let (r, st') := body st in
    match cleanup st' with
    | (Returned _, st'') => (r, st'')
    | (Raised e, st'') => (Raised e, st'')
    end.

Definition required_fields : list pystr :=
  [py "First Name"; py "Last Name"; py "DOB"; py "Address"; py "Phone NO";
   py "Doc Name"; py "NPI"; py "DOC Address"; py "Doc Phone no"].

Section Worker.
Context {World : Type} {env : Env World} {host : Host World}.

Definition lift {A} (m : M World A) : M (state World) A := fun st =>
  let (r, w) := m (world st) in
  (r, {| world := w; success_count := success_count st;
         is_processing := is_processing st |}).

Definition get : M (state World) (state World) := fun st => (Returned st, st).

Definition set_success_count (n : nat) : M (state World) unit := fun st =>
  (Returned tt,
   {| world := world st; success_count := n;
      is_processing := is_processing st |}).

Definition set_is_processing (b : bool) : M (state World) unit := fun st =>
  (Returned tt,
   {| world := world st; success_count := success_count st;
      is_processing := b |}).

(** The truth value of a cell. *)
Definition truthy (v : pyval) : bool :=
  match v with
  | VStr s => negb (is_empty s)
  | VNum repr => nonzero repr
  end.

(** [field not in record or not record[field]]. *)
Definition missing (record : Record) (field : pystr) : bool :=
  match record !! field with
  | None => true
  | Some v => negb (truthy v)
  end.

Definition missing_fields (record : Record) : list pystr :=
  filter (fun field => missing record field = true) required_fields.

(** The inner [try] around the two [os.makedirs]: [false] is its
    [continue]. *)
Definition ensure_directories (cfg : Settings)
    (doc_folder_path pdf_folder_path : pyval) : M World bool :=
  try_except
    (perform (os_makedirs doc_folder_path);;
     when (create_pdf_var cfg) (perform (os_makedirs pdf_folder_path));;
     mret true)
    (fun _ => mret false).

(** From the saving of the Word document to the removal of the temporary
    one. *)
Definition write (cfg : Settings) (i : nat) (base_filename : pystr)
    (doc_folder_path pdf_folder_path : pyval) : M World unit :=
  doc_path ←
    (if create_word_var cfg
     then perform (save doc_folder_path (base_filename ++ py ".docx"));;
          mret (Some (doc_folder_path, base_filename ++ py ".docx"))
     else mret None);
  when (create_pdf_var cfg)
    (match doc_path with
     | Some (folder, name) =>
         perform (convert folder name pdf_folder_path
                    (base_filename ++ py ".pdf"))
     | None =>
         let folder := VStr (output_dir cfg) in
         let name := py "_temp_" ++ str_int i ++ py ".docx" in
         perform (save folder name);;
         perform (convert folder name pdf_folder_path
                    (base_filename ++ py ".pdf"));;
         swallow (perform (os_remove folder name))
     end).

(** A record with its required fields, up to [success_count += 1]; the
    result tells whether that line is reached. *)
Definition process (cfg : Settings) (i : nat) (record : Record)
  : M World bool :=
  perform (DocxTemplate (template_path cfg));;
  perform (render record);;
  match base_filename record i with
  | None => raise (no_strip record)
  | Some base_filename =>
      let doc_folder_path := doc_folder_path cfg record in
      let pdf_folder_path := pdf_folder_path cfg record in
      made ← ensure_directories cfg doc_folder_path pdf_folder_path;
      if made : bool
      then write cfg i base_filename doc_folder_path pdf_folder_path;;
           mret true
      else mret false
  end.

(** The body of the [for] loop. *)
Definition attempt (cfg : Settings) (i : nat) (record : Record)
  : M (state World) unit :=
  try_except
    (lift (root_after loop_status);;
     lift (root_after loop_progress);;
     match missing_fields record with
     | _ :: _ => mret tt
     | [] =>
         counted ← lift (process cfg i record);
         if counted : bool
         then st ← get; set_success_count (success_count st + 1)
         else mret tt
     end)
    (fun _ => mret tt).

Fixpoint process_records (cfg : Settings) (i : nat) (records : list Record)
  : M (state World) unit :=
  match records with
  | [] => mret tt
  | record :: rest =>
      attempt cfg i record;; process_records cfg (S i) rest
  end.

Definition completion_msg (succeeded total_records : nat) : pystr :=
  py "Completed processing " ++ str_int succeeded ++ py "/"
  ++ str_int total_records ++ py " records successfully".

Definition success_text (succeeded total_records : nat) : pystr :=
  py "Mail merge completed!" ++ nl ++ str_int succeeded ++ py " of "
  ++ str_int total_records ++ py " documents were processed successfully.".

Definition merge (cfg : Settings) : M (state World) unit :=
  lift (root_after loading_status);;
  lift (root_after progress_zero);;
  records ← lift (load_records cfg);
  let total_records := length records in
  if (total_records =? 0)%nat
  then raise (py "No records found in data source")
  else
    lift (perform (os_makedirs (VStr (output_dir cfg))));;
    set_success_count 0;;
    process_records cfg 0 records;;
    lift (root_after progress_full);;
    st ← get;
    lift (root_after
            (completion_status
               (completion_msg (success_count st) total_records)));;
    lift (root_after
            (showinfo_success
               (success_text (success_count st) total_records))).

Definition _mail_merge_worker (cfg : Settings) : M (state World) unit :=
  try_finally_raising
    (try_except (merge cfg)
       (fun e =>
          lift (root_after error_status);;
          lift (root_after (showerror_error (py "Mail merge failed: " ++ e)))))
    (lift (root_after enable_run_button);; set_is_processing false).

End Worker.

(** [run_mail_merge] sets [is_processing] before it starts the thread. *)
Definition initial_state {World} (w : World) : state World :=
  {| world := w; success_count := 0; is_processing := true |}.

(** A test environment: the data source holds [file], every call succeeds,
    the calls and the requests are recorded. *)
Definition desk (file : list Record) : Env (list op * list request) :=
  {| read_csv := fun _ w => (Returned file, w);
     read_excel := fun _ w => (Returned file, w);
     perform := fun o w => (Returned tt, (fst w ++ [o], snd w));
     elapsed := fun _ => py "0.0" |}.

Definition window : Host (list op * list request) :=
  {| root_after := fun r w => (Returned tt, (fst w, snd w ++ [r]));
     nonzero := fun repr =>
       negb (pystr_eqb repr (py "0") || pystr_eqb repr (py "0.0"));
     no_strip := fun _ => py "object has no attribute 'strip'" |}.

(** A record with its nine required fields. *)
Definition full_record : Record :=
  list_to_map
    [(py "First Name", VStr (py "Ann")); (py "Last Name", VStr (py "Lee"));
     (py "DOB", VStr (py "1950-01-02")); (py "Address", VStr (py "1 Main St"));
     (py "Phone NO", VNum (py "5550100")); (py "Doc Name", VStr (py "Dr. Roe"));
     (py "NPI", VNum (py "1234567890"));
     (py "DOC Address", VStr (py "2 Side St"));
     (py "Doc Phone no", VNum (py "5550101"))].

(** The same record without its date of birth. *)
Definition record_without_dob : Record := delete (py "DOB") full_record.


End V1.

(** ** [_backup_existing_files] *)

(** The file system as the backup sees it.  A path is the pair that
    [os.path.join] is given; [now] is the text of
    [datetime.now().strftime('%Y%m%d_%H%M%S')]; [not_a_path] is the text of
    the type error that [os.path.join] raises for a folder that is a
    number. *)
Class Files (World : Type) := {
  now : World -> pystr;
  os_path_exists : pystr -> pystr -> World -> bool;
  os_rename : pystr -> pystr -> pystr -> M World unit;
  not_a_path : pyval -> pystr;
}.

Module Backup.
Section Backup.
Context {World : Type} {fs : Files World}.

(** The names built by the two f-strings of each half. *)
Definition file_name (base_filename ext : pystr) : pystr :=
  base_filename ++ ext.

Definition backup_name (base_filename timestamp ext : pystr) : pystr :=
  base_filename ++ py "_backup_" ++ timestamp ++ ext.

(** One of the two halves: the Word file with [.docx], the PDF file with
    [.pdf]. *)
Definition backup_one (folder : pyval) (base_filename timestamp ext : pystr)
  : M World unit :=
  match folder with
  | VNum _ => raise (not_a_path folder)
  | VStr folder => fun w =>
      if os_path_exists folder (file_name base_filename ext) w
      then swallow
             (os_rename folder (file_name base_filename ext)
                (backup_name base_filename timestamp ext)) w
      else (Returned tt, w)
  end.

Definition _backup_existing_files (doc_folder pdf_folder : pyval)
    (base_filename : pystr) : M World unit := fun w =>
  let timestamp := now w in
  (backup_one doc_folder base_filename timestamp (py ".docx");;
   backup_one pdf_folder base_filename timestamp (py ".pdf")) w.

End Backup.
End Backup.

(** A disk: the text of each file, by folder and name, and the time it is.
    Renaming moves the text, and replaces what the new name held. *)
Definition disk : Type := gmap (pystr * pystr) pystr * pystr.

Definition on_disk : Files disk :=
  {| now := fun w => snd w;
     os_path_exists := fun folder name w =>
       bool_decide (is_Some (fst w !! (folder, name)));
     os_rename := fun folder name new_name w =>
       match fst w !! (folder, name) with
       | Some text =>
           (Returned tt,
            (<[(folder, new_name) := text]> (delete (folder, name) (fst w)),
             snd w))
       | None => (Raised (py "No such file or directory"), w)
       end;
     not_a_path := fun _ =>
       py "expected str, bytes or os.PathLike object" |}.

(** The same disk, but nothing can be renamed in the folder [locked]. *)
Definition read_only (locked : pystr) : Files disk :=
  {| now := fun w => snd w;
     os_path_exists := fun folder name w =>
       bool_decide (is_Some (fst w !! (folder, name)));
     os_rename := fun folder name new_name w =>
       if pystr_eqb folder locked
       then (Raised (py "Permission denied"), w)
       else os_rename (Files := on_disk) folder name new_name w;
     not_a_path := fun _ =>
       py "expected str, bytes or os.PathLike object" |}.

(** A Word file and a PDF file of the same stem, in two folders. *)
Definition two_files : disk :=
  (<[(py "docs", py "Ann_Lee.docx") := py "old letter"]>
     (<[(py "pdfs", py "Ann_Lee.pdf") := py "old pdf"]> ∅),
   py "20240401_090000").

(** What a backup does to the files of a disk: the text at [target], if any,
    goes to [backup]. *)
Definition set_aside (target backup : pystr * pystr)
    (files : gmap (pystr * pystr) pystr) : gmap (pystr * pystr) pystr :=
  match files !! target with
  | Some text => <[backup := text]> (delete target files)
  | None => files
  end.

(** ** [_setup_logging] (v2) *)

(** What [_setup_logging] calls besides the cleanup: [os.path.expanduser],
    [os.makedirs(log_dir, exist_ok=True)], the text of
    [datetime.now().strftime('%Y%m%d_%H%M%S')], and [logging.basicConfig],
    whose file handler opens the log file, given here as folder and name. *)
Class Logging (World : Type) := {
  logging_dir : LogDir World;
  expanduser : pystr -> pystr;
  makedirs_exist_ok : pystr -> M World unit;
  strftime_now : World -> pystr;
  basicConfig : pystr -> pystr -> M World unit;
}.
#[global] Existing Instance logging_dir.

Section SetupLogging.
Context {World : Type} {logging : Logging World}.

(** [_cleanup_old_logs(log_dir)] is called with the default
    [keep_count=10]. *)
Definition _setup_logging : M World unit :=
  let log_dir := expanduser (py "~/Documents/MailMergeLogs") in
  makedirs_exist_ok log_dir;;
  ((fun w =>
      let timestamp := strftime_now w in
      let log_file := py "mailmerge_" ++ timestamp ++ py ".log" in
      (_cleanup_old_logs log_dir 10;; basicConfig log_dir log_file) w)
   : M World unit).

End SetupLogging.

(** The plain directory at the time [stamp]: the directory is there, and
    opening the log file creates it when it is not there. *)
Definition plain_logging (stamp : pystr) : Logging (list pystr * list pystr) :=
  {| logging_dir := plain_directory;
     expanduser := fun path => path;
     makedirs_exist_ok := fun _ w => (Returned tt, w);
     strftime_now := fun _ => stamp;
     basicConfig := fun _ name w =>
       (Returned tt,
        (if bool_decide (name ∈ fst w) then fst w else fst w ++ [name],
         snd w)) |}.

(** ** [_save_settings] (v2) *)

(** A value that [json.load] gives and [json.dump] takes.  Of a number its
    text and whether it is zero are kept. *)
#[warnings="-register-all"]
Inductive json :=
| JNull
| JBool (b : bool)
| JNumber (zero : bool) (text : pystr)
| JString (s : pystr)
| JArray (items : list json)
| JObject (members : list (pystr * json)).

(** The truth value of the Python object, as [not] tests it. *)
Definition truth (j : json) : bool :=
  match j with
  | JNull => false
  | JBool b => b
  | JNumber zero _ => negb zero
  | JString s => negb (is_empty s)
  | JArray items => match items with [] => false | _ => true end
  | JObject members => match members with [] => false | _ => true end
  end.

(** [self.settings], a dict with the keys of a JSON object. *)
Abbreviation settings_dict := (gmap pystr json).

(** [with open(self.settings_file, 'w') as f: json.dump(self.settings, f,
    indent=2)], one call that leaves the program. *)
Class SettingsFile (World : Type) := {
  json_dump : settings_dict -> M World unit;
}.

(** The five keys of the [update]. *)
Definition saved_keys : list pystr :=
  [py "last_template"; py "last_data_source"; py "last_output_dir";
   py "create_word"; py "create_pdf"].

Section SaveSettings.
Context {World : Type} {file : SettingsFile World}.

(** The state is [self.settings] and the world.  The [update] is done before
    the file is opened, so it stays when the writing raises. *)
Definition _save_settings (cfg : Settings)
  : M (settings_dict * World) unit := fun st =>
  let (settings, w) := st in
  if negb (truth (default (JBool true) (settings !! py "auto_save_settings")))
  then (Returned tt, st)
  else
    swallow
      (fun st =>
         let settings :=
           <[py "create_pdf" := JBool (create_pdf_var cfg)]>
             (<[py "create_word" := JBool (create_word_var cfg)]>
                (<[py "last_output_dir" := JString (output_dir cfg)]>
                   (<[py "last_data_source" :=
                        JString (data_source_path cfg)]>
                      (<[py "last_template" := JString (template_path cfg)]>
                         (fst st))))) in
         let (r, w) := json_dump settings (snd st) in
         (r, (settings, w)))
      st.

(** One call after the other, as the menu entry, the buttons and every run
    make them. *)
Fixpoint save_each (cfgs : list Settings) : M (settings_dict * World) unit :=
  match cfgs with
  | [] => mret tt
  | cfg :: rest => _save_settings cfg;; save_each rest
  end.

End SaveSettings.

(** A settings file that takes what is written: the world is the object the
    file holds, if it has been written. *)
Definition writable_file : SettingsFile (option settings_dict) :=
  {| json_dump := fun settings _ => (Returned tt, Some settings) |}.

(** The settings of a first start, lines 91 to 100, with the folder
    [output] as the output directory. *)
Definition default_settings (output : pystr) : settings_dict :=
  <[py "filename_pattern" := JString (py "{First Name}_{Last Name}")]>
    (<[py "max_preview_rows" := JNumber false (py "100")]>
       (<[py "auto_save_settings" := JBool true]>
          (<[py "create_pdf" := JBool true]>
             (<[py "create_word" := JBool true]>
                (<[py "last_output_dir" := JString output]>
                   (<[py "last_data_source" := JString []]>
                      (<[py "last_template" := JString []]> ∅))))))).

(** * Properties *)

(** ** Sanity checks of the string model *)

Example findall_default :
  findall (py "{First Name}_{Last Name}") = [py "First Name"; py "Last Name"].
Proof. reflexivity. Qed.

Example findall_nested : findall (py "x{a{b}y{}z{c") = [py "a{b"].
Proof. reflexivity. Qed.

Example replace_twice :
  replace (py "a{x}b{x}") (py "{x}") (py "Q") = py "aQbQ".
Proof. reflexivity. Qed.

Example replace_no_overlap : replace (py "aaa") (py "aa") (py "b") = py "ba".
Proof. reflexivity. Qed.

Example clean_example :
  _clean_filename (VStr (py " a/b:c. ")) = py "a_b_c".
Proof. reflexivity. Qed.

(** ** Stripping *)

Section Strip.
Variable p : N -> bool.

Lemma lstrip_nil_iff (s : pystr) :
  lstrip p s = [] <-> Forall (fun c => p c = true) s.
Proof.
  induction s as [|c s IH]; simpl.
  - split; auto.
  - destruct (p c) eqn:Hc.
    + rewrite IH. split; [intros; constructor; auto | inversion 1; auto].
    + split; [discriminate | inversion 1; congruence].
Qed.

Lemma lstrip_head (s : pystr) c t : lstrip p s = c :: t -> p c = false.
Proof.
  induction s as [|a s IH]; simpl; [discriminate|].
  destruct (p a) eqn:Ha; [auto | intros [= <- _]; exact Ha].
Qed.

Lemma lstrip_fixed (c : N) (s : pystr) :
  p c = false -> lstrip p (c :: s) = c :: s.
Proof. intros H; simpl; now rewrite H. Qed.

Lemma lstrip_idemp (s : pystr) : lstrip p (lstrip p s) = lstrip p s.
Proof.
  destruct (lstrip p s) as [|c t] eqn:E; [reflexivity|].
  apply lstrip_fixed, (lstrip_head _ _ _ E).
Qed.

Lemma lstrip_snoc (s : pystr) c :
  p c = false -> exists t, lstrip p (s ++ [c]) = t ++ [c].
Proof.
  intros Hc; induction s as [|a s [t IH]]; simpl.
  - rewrite Hc. now exists [].
  - destruct (p a); [now exists t | now exists (a :: s)].
Qed.

Lemma lstrip_Forall (Q : N -> Prop) (s : pystr) :
  Forall Q s -> Forall Q (lstrip p s).
Proof.
  induction 1 as [|c s Hc Hs IH]; simpl; [constructor|].
  destruct (p c); [exact IH | now constructor].
Qed.

Lemma rstrip_nil_iff (s : pystr) :
  rstrip p s = [] <-> Forall (fun c => p c = true) s.
Proof.
  unfold rstrip. split.
  - intros H. apply (f_equal (@rev N)) in H. rewrite rev_involutive in H.
    simpl in H. apply lstrip_nil_iff in H. apply List.Forall_rev in H.
    now rewrite rev_involutive in H.
  - intros H. apply List.Forall_rev, lstrip_nil_iff in H. now rewrite H.
Qed.

Lemma rstrip_idemp (s : pystr) : rstrip p (rstrip p s) = rstrip p s.
Proof. unfold rstrip. now rewrite rev_involutive, lstrip_idemp. Qed.

Lemma rstrip_Forall (Q : N -> Prop) (s : pystr) :
  Forall Q s -> Forall Q (rstrip p s).
Proof.
  intros H. unfold rstrip. now apply List.Forall_rev, lstrip_Forall, List.Forall_rev.
Qed.

(** Stripping the right end leaves a stripped left end alone. *)
Lemma lstrip_rstrip (s : pystr) :
  lstrip p s = s -> lstrip p (rstrip p s) = rstrip p s.
Proof.
  destruct s as [|c s]; [reflexivity|]. intros H.
  assert (Hc : p c = false) by exact (lstrip_head _ _ _ H).
  unfold rstrip. simpl rev.
  destruct (lstrip_snoc (rev s) c Hc) as [t ->].
  rewrite rev_app_distr. simpl. now rewrite Hc.
Qed.

Lemma strip_idemp (s : pystr) : strip p (strip p s) = strip p s.
Proof.
  unfold strip.
  rewrite (lstrip_rstrip (lstrip p s) (lstrip_idemp s)).
  apply rstrip_idemp.
Qed.

Lemma strip_nil_iff (s : pystr) :
  strip p s = [] <-> Forall (fun c => p c = true) s.
Proof.
  unfold strip. rewrite rstrip_nil_iff. split.
  - intros H. apply lstrip_nil_iff.
    destruct (lstrip p s) as [|c t] eqn:E; [reflexivity|].
    apply lstrip_head in E. inversion H; congruence.
  - intros H. apply lstrip_nil_iff in H. rewrite H. constructor.
Qed.

Lemma strip_Forall (Q : N -> Prop) (s : pystr) :
  Forall Q s -> Forall Q (strip p s).
Proof. intros H. now apply rstrip_Forall, lstrip_Forall. Qed.
End Strip.

Lemma is_empty_true (s : pystr) : is_empty s = true <-> s = [].
Proof. destruct s; simpl; split; congruence. Qed.

Lemma char_in_singleton (a c : N) : char_in [a] c = true <-> c = a.
Proof.
  unfold char_in; simpl. rewrite orb_false_r. apply N.eqb_eq.
Qed.

(** [sub_invalid] leaves no character of the class, and changes nothing in a
    string that has none. *)
Lemma sub_char_valid (c : N) : char_in invalid_chars (sub_char c) = false.
Proof.
  unfold sub_char. destruct (char_in invalid_chars c) eqn:E; [reflexivity | exact E].
Qed.

Lemma sub_invalid_valid (s : pystr) :
  Forall (fun c => char_in invalid_chars c = false) (sub_invalid s).
Proof. apply Forall_map, Forall_forall. intros c _. apply sub_char_valid. Qed.

Lemma sub_invalid_id (s : pystr) :
  Forall (fun c => char_in invalid_chars c = false) s -> sub_invalid s = s.
Proof.
  induction 1 as [|c s Hc Hs IH]; [reflexivity|].
  unfold sub_invalid in *. cbn [map]. unfold sub_char at 1. now rewrite Hc, IH.
Qed.

Lemma digits_are_digits (u : Decimal.uint) :
  Forall (fun c => 0x30 <= c <= 0x39) (digits u).
Proof. induction u; simpl; constructor; auto; lia. Qed.

Lemma fallback_stem_head (i : nat) :
  exists t, fallback_stem i = chr "d" :: t.
Proof. unfold fallback_stem. simpl. eauto. Qed.

(** C7: [_clean_filename] is idempotent: cleaning an already cleaned name
    returns it unchanged.  The argument is any value, read through [str()] as
    the source does; the definition is the one of both versions. *)
Theorem clean_filename_idempotent (filename : pyval) :
  _clean_filename (VStr (_clean_filename filename)) = _clean_filename filename.
Proof.
  unfold _clean_filename at 2 3.
  set (cleaned := strip _ (sub_invalid (str filename))).
  destruct (is_empty cleaned) eqn:E; [reflexivity|].
  unfold _clean_filename; simpl str.
  rewrite sub_invalid_id by apply strip_Forall, sub_invalid_valid.
  subst cleaned. rewrite strip_idemp.
  fold (strip (char_in (py " .")) (sub_invalid (str filename))) in E.
  now rewrite E.
Qed.

(** C1: for every record, pattern and index, [_generate_filename] returns a
    stem (it is a total function) that is neither empty nor made of
    underscores only; the stem is the substituted pattern or the fallback
    [document_<index+1>], and it is the fallback whenever the substituted
    pattern is empty or made of underscores only. *)
Theorem generate_filename_usable (record : Record) (pattern : pystr)
    (index : nat) :
  let filename := fold_left (substitute record) (findall pattern) pattern in
  let stem := _generate_filename record pattern index in
  stem <> [] /\ ~ only_underscores stem
  /\ (stem = filename \/ stem = fallback_stem index)
  /\ (only_underscores filename -> stem = fallback_stem index)
  /\ fallback_stem index = py "document_" ++ str_int (index + 1).
Proof.
  intros filename stem. subst stem. unfold _generate_filename. fold filename.
  assert (Hfb : fallback_stem index <> []
                /\ ~ only_underscores (fallback_stem index)).
  { destruct (fallback_stem_head index) as [t ->]. split; [discriminate|].
    inversion 1; subst. discriminate. }
  assert (Hu : is_empty (strip (char_in (py "_")) filename) = true
               <-> only_underscores filename).
  { rewrite is_empty_true, strip_nil_iff. unfold only_underscores.
    apply Forall_iff. intros c. apply (char_in_singleton (chr "_")). }
  destruct (is_empty (strip (char_in (py "_")) filename)) eqn:E; simpl.
  - repeat split; try tauto.
  - assert (Hn : ~ only_underscores filename)
      by (intros H; apply Hu in H; discriminate).
    destruct (pystr_eqb (strip isspace filename) []) eqn:E2.
    + repeat split; try tauto.
    + repeat split; auto; try tauto.
      intros ->. apply Hn. constructor.
Qed.

(** *** [findall] is the leftmost, non-overlapping matching of the expression *)

Lemma findall_other (c : N) (s : pystr) :
  c <> chr "{" -> findall (c :: s) = findall s.
Proof.
  intros H. unfold findall. cbn [findall_from].
  apply N.eqb_neq in H. now rewrite H.
Qed.

Lemma findall_no_open (s : pystr) :
  Forall (fun c => c <> chr "{") s -> findall s = [].
Proof.
  induction 1 as [|c s Hc Hs IH]; [reflexivity|]. now rewrite findall_other.
Qed.

Lemma findall_from_unclosed (acc s : pystr) :
  Forall (fun c => c <> chr "}") s -> findall_from (Some acc) s = [].
Proof.
  intros H. revert acc. induction H as [|c s Hc Hs IH]; intros acc; [reflexivity|].
  cbn [findall_from]. apply N.eqb_neq in Hc. rewrite Hc. apply IH.
Qed.

Lemma findall_from_closed (acc name rest : pystr) :
  Forall (fun c => c <> chr "}") name ->
  findall_from (Some acc) (name ++ chr "}" :: rest) =
  match rev acc ++ name with
  | [] => findall rest
  | var => var :: findall rest
  end.
Proof.
  intros H. revert acc. induction H as [|c s Hc Hs IH]; intros acc.
  - cbn [app findall_from]. rewrite N.eqb_refl, app_nil_r.
    destruct acc as [|a acc]; [reflexivity|].
    fold (findall rest). cbn [rev]. now destruct (rev acc).
  - cbn [app findall_from]. apply N.eqb_neq in Hc. rewrite Hc, IH.
    cbn [rev]. now rewrite <- app_assoc.
Qed.

(** A match: an opening brace, a non-empty name without closing brace, a
    closing brace; the search goes on after it. *)
Lemma findall_match (name rest : pystr) :
  name <> [] -> Forall (fun c => c <> chr "}") name ->
  findall (placeholder name ++ rest) = name :: findall rest.
Proof.
  intros Hne H. unfold placeholder, findall. cbn [app findall_from].
  rewrite N.eqb_refl, <- app_assoc. cbn [app].
  rewrite findall_from_closed by assumption. cbn [rev app].
  now destruct name.
Qed.

(** No match at an opening brace that a closing brace follows at once, nor at
    one that no closing brace follows. *)
Lemma findall_empty_braces (rest : pystr) :
  findall (chr "{" :: chr "}" :: rest) = findall rest.
Proof. reflexivity. Qed.

Lemma findall_unclosed (s : pystr) :
  Forall (fun c => c <> chr "}") s -> findall (chr "{" :: s) = [].
Proof. intros H. unfold findall. cbn [findall_from]. rewrite N.eqb_refl. now apply findall_from_unclosed. Qed.

Lemma findall_app_no_open (pre s : pystr) :
  Forall (fun c => c <> chr "{") pre -> findall (pre ++ s) = findall s.
Proof.
  induction 1 as [|c pre Hc Hs IH]; [reflexivity|].
  cbn [app]. now rewrite findall_other.
Qed.

(** *** [replace] *)

Lemma startswith_app (old s : pystr) : startswith old (old ++ s) = true.
Proof. induction old as [|a old IH]; [reflexivity|]. cbn. now rewrite N.eqb_refl. Qed.

Lemma replace_from_skip (x old new s : pystr) :
  replace_from (length x) old new (x ++ s) = replace_from O old new s.
Proof. induction x as [|a x IH]; [reflexivity|]. exact IH. Qed.

Lemma replace_from_match (a : N) (old new s : pystr) :
  replace_from O (a :: old) new ((a :: old) ++ s)
  = new ++ replace_from O (a :: old) new s.
Proof.
  cbn [app replace_from]. change (a :: old ++ s) with ((a :: old) ++ s).
  rewrite startswith_app. cbn [length Nat.pred]. now rewrite replace_from_skip.
Qed.

Lemma replace_from_other (a c : N) (old new s : pystr) :
  c <> a ->
  replace_from O (a :: old) new (c :: s) = c :: replace_from O (a :: old) new s.
Proof.
  intros H. cbn [replace_from startswith].
  apply not_eq_sym, N.eqb_neq in H. now rewrite H.
Qed.

Lemma replace_from_no_head (a : N) (old new s : pystr) :
  Forall (fun c => c <> a) s -> replace_from O (a :: old) new s = s.
Proof.
  induction 1 as [|c s Hc Hs IH]; [reflexivity|].
  now rewrite replace_from_other, IH.
Qed.

Lemma replace_placeholder (pre var post new : pystr) :
  Forall (fun c => c <> chr "{") pre -> Forall (fun c => c <> chr "{") post ->
  replace (pre ++ placeholder var ++ post) (placeholder var) new
  = pre ++ new ++ post.
Proof.
  intros Hpre Hpost. unfold replace, placeholder.
  induction Hpre as [|c pre Hc Hs IH].
  - cbn [app]. change (chr "{" :: (var ++ [chr "}"]) ++ post) with ((chr "{" :: var ++ [chr "}"]) ++ post).
    rewrite replace_from_match. now rewrite replace_from_no_head.
  - cbn [app]. rewrite replace_from_other by assumption. f_equal. exact IH.
Qed.

(** *** The resolver *)

Lemma clean_unknown :
  _clean_filename (VStr (strip isspace (py "Unknown"))) = py "Unknown".
Proof. reflexivity. Qed.

Lemma substitute_absent (record : Record) (filename var : pystr) :
  record !! var = None ->
  substitute record filename var = replace filename (placeholder var) (py "Unknown").
Proof. intros H. unfold substitute. now rewrite H. Qed.

Lemma substitute_insert_unknown (record : Record) (var filename v : pystr) :
  record !! var = None ->
  substitute (<[var := VStr (py "Unknown")]> record) filename v
  = substitute record filename v.
Proof.
  intros H. unfold substitute. destruct (decide (var = v)) as [<-|Hne].
  - rewrite lookup_insert_eq, H. cbn [str]. now rewrite clean_unknown.
  - now rewrite lookup_insert_ne.
Qed.

Lemma unknown_not_blank (pre post : pystr) (p : N -> bool) :
  p (chr "U") = false -> strip p (pre ++ py "Unknown" ++ post) <> [].
Proof.
  intros Hp H. apply strip_nil_iff in H.
  apply Forall_app in H as [_ H].
  change (py "Unknown") with (chr "U" :: py "nknown") in H.
  cbn [app] in H. apply Forall_cons in H as [H _]. congruence.
Qed.

(** C2: with the pattern [{First Name}_{Last Name}], Ann Lee resolves to
    [Ann_Lee]; the record with both names empty resolves to
    [document_document], whatever the index, which is not the fallback
    [document_<index+1>] the claim states: [_clean_filename] has turned each
    empty name into [document] before the test for an empty stem. *)
Theorem default_pattern_examples (index : nat) :
  _generate_filename ann_lee (py "{First Name}_{Last Name}") index
  = py "Ann_Lee"
  /\ _generate_filename no_names (py "{First Name}_{Last Name}") index
     = py "document_document"
  /\ py "document_document" <> fallback_stem index.
Proof.
  split; [reflexivity|]. split; [reflexivity|].
  unfold fallback_stem. intros H.
  change (py "document_document") with (py "document_" ++ py "document") in H.
  apply app_inv_head in H.
  pose proof (digits_are_digits (Nat.to_uint (index + 1))) as D.
  unfold str_int in H. rewrite <- H in D. inversion D as [|c t Hc _]; subst.
  vm_compute in Hc. destruct Hc as [_ Hc]. now apply Hc.
Qed.

(** ** Patterns of texts and placeholders *)

Section Segments.
Implicit Types (record : Record) (segs : list segment) (n m : pystr).

Lemma substitute_filled record (filename n : pystr) :
  substitute record filename n
  = replace filename (placeholder n) (filled record (Field n)).
Proof. unfold substitute, filled. now destruct (record !! n). Qed.

Lemma replace_from_no_open (old new x s : pystr) :
  Forall (fun c => c <> chr "{") x ->
  replace_from O (chr "{" :: old) new (x ++ s)
  = x ++ replace_from O (chr "{" :: old) new s.
Proof.
  induction 1 as [|c x Hc _ IH]; [reflexivity|].
  cbn [app]. rewrite replace_from_other by exact Hc. now rewrite IH.
Qed.

Lemma startswith_names n m (s : pystr) :
  Forall (fun c => c <> chr "}") n -> Forall (fun c => c <> chr "}") m ->
  n <> m -> startswith (n ++ [chr "}"]) (m ++ chr "}" :: s) = false.
Proof.
  intros Hn. revert m. induction Hn as [|a n Ha _ IH]; intros m Hm Hne.
  - destruct m as [|b m]; [congruence|]. cbn [app startswith].
    apply Forall_cons in Hm as [Hb _].
    destruct (N.eqb_spec (chr "}") b); [congruence | reflexivity].
  - destruct Hm as [|b m Hb Hm]; cbn [app startswith].
    + destruct (N.eqb_spec a (chr "}")); [congruence | reflexivity].
    + destruct (N.eqb_spec a b) as [->|]; [|reflexivity].
      cbn [andb]. apply IH; [exact Hm | congruence].
Qed.

Lemma replace_from_other_placeholder n m (new s : pystr) :
  Forall (fun c => c <> chr "{" /\ c <> chr "}") n ->
  Forall (fun c => c <> chr "{" /\ c <> chr "}") m ->
  n <> m ->
  replace_from O (placeholder n) new (placeholder m ++ s)
  = placeholder m ++ replace_from O (placeholder n) new s.
Proof.
  intros Hn Hm Hne. unfold placeholder. cbn [app replace_from startswith].
  rewrite N.eqb_refl. cbn [andb].
  rewrite <- app_assoc. cbn [app].
  rewrite startswith_names; [| | |exact Hne].
  - f_equal.
    change (m ++ chr "}" :: s) with (m ++ [chr "}"] ++ s).
    rewrite (app_assoc m), replace_from_no_open.
    + now rewrite <- app_assoc.
    + apply Forall_app. split.
      * eapply Forall_impl; [exact Hm|]. cbn. tauto.
      * repeat constructor. discriminate.
  - eapply Forall_impl; [exact Hn|]. cbn. tauto.
  - eapply Forall_impl; [exact Hm|]. cbn. tauto.
Qed.

(** One turn of the loop on a pattern of plain segments. *)
Lemma substitute_partly record segs (done : list pystr) n :
  Forall plain segs ->
  Forall (fun seg => Forall (fun c => c <> chr "{") (filled record seg)) segs ->
  Forall (fun c => c <> chr "{" /\ c <> chr "}") n ->
  substitute record (flat_map (partly record done) segs) n
  = flat_map (partly record (n :: done)) segs.
Proof.
  intros Hplain Hval Hn. rewrite substitute_filled.
  unfold replace, placeholder. fold (placeholder n).
  induction segs as [|seg segs IH]; [reflexivity|].
  apply Forall_cons in Hplain as [Hseg Hplain].
  apply Forall_cons in Hval as [Hv Hval].
  specialize (IH Hplain Hval). cbn [flat_map].
  destruct seg as [text|m]; cbn [partly].
  - unfold placeholder. rewrite replace_from_no_open by exact Hseg.
    fold (placeholder n). now rewrite IH.
  - destruct Hseg as [_ Hm].
    destruct (bool_decide (m ∈ done)) eqn:Hd.
    + apply bool_decide_eq_true in Hd.
      rewrite (bool_decide_eq_true_2 (m ∈ n :: done))
        by (now apply list_elem_of_further).
      unfold placeholder. rewrite replace_from_no_open by exact Hv.
      fold (placeholder n). now rewrite IH.
    + apply bool_decide_eq_false in Hd.
      destruct (decide (n = m)) as [->|Hne].
      * rewrite (bool_decide_eq_true_2 (m ∈ m :: done))
          by apply list_elem_of_here.
        unfold placeholder at 1 2. rewrite replace_from_match.
        fold (placeholder m). now rewrite IH.
      * rewrite (bool_decide_eq_false_2 (m ∈ n :: done)).
        2:{ rewrite elem_of_cons. intros [->|?]; contradiction. }
        rewrite replace_from_other_placeholder by assumption.
        now rewrite IH.
Qed.


(** The variables that the expression finds in a pattern of plain segments
    are the names of its fields. *)
Lemma findall_pattern_of segs :
  Forall plain segs -> findall (pattern_of segs) = fields segs.
Proof.
  unfold pattern_of, fields.
  induction 1 as [|seg segs Hseg _ IH]; [reflexivity|].
  cbn [flat_map]. destruct seg as [text|n]; cbn [written plain] in *.
  - now rewrite findall_app_no_open.
  - destruct Hseg as [Hne Hn]. rewrite findall_match, IH; [reflexivity|exact Hne|].
    eapply Forall_impl; [exact Hn|]. cbn. tauto.
Qed.

Lemma fields_plain segs :
  Forall plain segs ->
  Forall (fun n => Forall (fun c => c <> chr "{" /\ c <> chr "}") n)
    (fields segs).
Proof.
  unfold fields. induction 1 as [|seg segs Hseg _ IH]; [constructor|].
  cbn [flat_map]. destruct seg as [text|n]; [exact IH|].
  constructor; [apply Hseg | exact IH].
Qed.

Lemma fold_substitute record segs (names done : list pystr) :
  Forall plain segs ->
  Forall (fun seg => Forall (fun c => c <> chr "{") (filled record seg)) segs ->
  Forall (fun n => Forall (fun c => c <> chr "{" /\ c <> chr "}") n) names ->
  fold_left (substitute record) names (flat_map (partly record done) segs)
  = flat_map (partly record (rev names ++ done)) segs.
Proof.
  intros Hplain Hval Hnames. revert done.
  induction Hnames as [|n names Hn _ IH]; intros done; [reflexivity|].
  cbn [fold_left rev]. rewrite substitute_partly by assumption.
  rewrite IH, <- app_assoc. reflexivity.
Qed.

Lemma partly_nil record segs :
  flat_map (partly record []) segs = pattern_of segs.
Proof.
  unfold pattern_of. apply flat_map_ext. intros [text|n]; [reflexivity|].
  cbn [partly written]. now rewrite bool_decide_eq_false_2 by apply not_elem_of_nil.
Qed.

Lemma elem_of_fields segs n : Field n ∈ segs -> n ∈ fields segs.
Proof.
  unfold fields. intros H. apply list_elem_of_In, in_flat_map.
  exists (Field n). split; [now apply list_elem_of_In | now left].
Qed.

Lemma partly_all record segs (done : list pystr) :
  (forall n, Field n ∈ segs -> n ∈ done) ->
  flat_map (partly record done) segs = flat_map (filled record) segs.
Proof.
  induction segs as [|seg segs IH]; intros H; [reflexivity|].
  cbn [flat_map]. rewrite IH.
  2:{ intros n Hn. apply H. now apply list_elem_of_further. }
  f_equal. destruct seg as [text|n]; [reflexivity|]. cbn [partly].
  rewrite bool_decide_eq_true_2; [reflexivity|]. apply H, list_elem_of_here.
Qed.

(** The loop over the variables fills every segment. *)
Lemma substitution_fills record segs :
  Forall plain segs ->
  Forall (fun seg => Forall (fun c => c <> chr "{") (filled record seg)) segs ->
  fold_left (substitute record) (findall (pattern_of segs)) (pattern_of segs)
  = flat_map (filled record) segs.
Proof.
  intros Hplain Hval.
  rewrite findall_pattern_of by exact Hplain.
  rewrite <- (partly_nil record segs).
  rewrite fold_substitute; [|assumption|assumption|now apply fields_plain].
  apply partly_all. intros n Hn. rewrite app_nil_r.
  apply list_elem_of_In. rewrite <- in_rev. apply list_elem_of_In.
  now apply elem_of_fields.
Qed.

End Segments.

(** C6, amended: for a pattern made of texts without opening brace and of
    placeholders whose names hold no brace, and a record whose cells, once
    stripped and cleaned, hold no opening brace, the loop of the resolver
    replaces every placeholder of a field the record lacks by exactly
    [Unknown], and every other one by the stripped, cleaned cell; with a
    lacking field the stem so made is what the resolver returns. *)
Theorem absent_field_is_unknown (record : Record) (segs : list segment)
    (index : nat) :
  Forall plain segs ->
  (forall name cell,
     Field name ∈ segs -> record !! name = Some cell ->
     Forall (fun c => c <> chr "{")
       (_clean_filename (VStr (strip isspace (str cell))))) ->
  let pattern := pattern_of segs in
  let stem := flat_map (filled record) segs in
  fold_left (substitute record) (findall pattern) pattern = stem
  /\ (forall name,
        Field name ∈ segs -> record !! name = None ->
        filled record (Field name) = py "Unknown"
        /\ _generate_filename record pattern index = stem).
Proof.
  intros Hplain Hcells pattern stem.
  assert (Hval : Forall (fun seg => Forall (fun c => c <> chr "{")
                                      (filled record seg)) segs).
  { apply Forall_forall. intros [text|n] Hin.
    - rewrite Forall_forall in Hplain. exact (Hplain _ Hin).
    - cbn [filled]. destruct (record !! n) as [cell|] eqn:E.
      + exact (Hcells n cell Hin E).
      + repeat constructor; discriminate. }
  assert (Hfill : fold_left (substitute record) (findall pattern) pattern
                  = stem) by now apply substitution_fills.
  split; [exact Hfill|].
  intros name Hin Habs.
  assert (Hf : filled record (Field name) = py "Unknown").
  { cbn [filled]. now rewrite Habs. }
  split; [exact Hf|].
  unfold _generate_filename. fold pattern. rewrite Hfill.
  apply list_elem_of_split in Hin as (before & after & ->).
  subst stem. rewrite flat_map_app. cbn [flat_map]. rewrite Hf.
  set (pre := flat_map (filled record) before).
  set (post := flat_map (filled record) after).
  destruct (is_empty _) eqn:E1.
  { apply is_empty_true in E1. now apply unknown_not_blank in E1. }
  destruct (pystr_eqb _ _) eqn:E2; [|reflexivity].
  apply bool_decide_eq_true in E2. now apply unknown_not_blank in E2.
Qed.

Lemma absent_field_is_unknown_witness :
  ann_lee !! py "Middle" = None
  /\ _generate_filename ann_lee (pattern_of letter_pattern) 0
     = py "letter_Unknown_AnnUnknown".
Proof.
  assert (Hplain : Forall plain letter_pattern).
  { repeat constructor; try discriminate;
      (apply (bool_decide_unpack (Forall _ _)); vm_compute; exact I). }
  assert (Hcells : forall name cell,
            Field name ∈ letter_pattern -> ann_lee !! name = Some cell ->
            Forall (fun c => c <> chr "{")
              (_clean_filename (VStr (strip isspace (str cell))))).
  { intros name cell Hin Hc. unfold letter_pattern in Hin.
    repeat (apply elem_of_cons in Hin as [Hin|Hin]);
      try discriminate; try (now apply elem_of_nil in Hin);
      injection Hin as ->; vm_compute in Hc; try discriminate;
      injection Hc as <-;
      apply (bool_decide_unpack (Forall _ _)); vm_compute; exact I. }
  destruct (absent_field_is_unknown ann_lee letter_pattern 0 Hplain Hcells)
    as [_ H].
  destruct (H (py "Middle")) as [_ E].
  - unfold letter_pattern. apply list_elem_of_further, list_elem_of_here.
  - reflexivity.
  - split; [reflexivity|]. rewrite E. reflexivity.
Defined.

(** A placeholder inside another one is never replaced; and a cell with an
    opening brace can make a placeholder of the text [Unknown], which is
    then replaced in turn. *)
Lemma nested_placeholder_is_left :
  (py "x{y" ∈ findall nested_pattern
   /\ record_y !! py "x{y" = None
   /\ _generate_filename record_y nested_pattern 0 = py "V {xV")
  /\ (Forall plain brace_pattern
      /\ Field (py "b") ∈ brace_pattern
      /\ record_brace !! py "b" = None
      /\ _generate_filename record_brace (pattern_of brace_pattern) 0
         = py "ZZ").
Proof.
  split.
  - split; [|split; reflexivity].
    apply (bool_decide_unpack (_ ∈ _)). vm_compute. exact I.
  - split; [|split; [|split; reflexivity]].
    + repeat constructor; try discriminate;
        (apply (bool_decide_unpack (Forall _ _)); vm_compute; exact I).
    + apply list_elem_of_further, list_elem_of_here.
Qed.

(** ** The loop *)

Section Attempt.
Context {World : Type} {env : Env World}.
Implicit Types (cfg : Settings) (st : state World) (w : World).

Lemma loop_messages_S (total i n : nat) :
  loop_messages total i (S n)
  = [status (processing_msg i total); progress (percent i total)]
    ++ loop_messages total (S i) n.
Proof. reflexivity. Qed.

Lemma loop_messages_0 (total i : nat) : loop_messages total i 0 = [].
Proof. reflexivity. Qed.

(** One turn of the loop. *)
Lemma attempt_eq cfg (total i : nat) (record : Record) st :
  attempt cfg total i record st =
  let queue := message_queue st ++ loop_messages total i 1 in
  match process cfg i record (world st) with
  | (Returned _, w) =>
      (Returned tt,
       Build_state _ w queue (success_count st + 1) (error_count st)
         (skipped_count st) (is_processing st))
  | (Raised e, w) =>
      if skip_errors_var cfg
      then (Returned tt,
            Build_state _ w queue (success_count st) (error_count st + 1)
              (skipped_count st + 1) (is_processing st))
      else (Raised e,
            Build_state _ w queue (success_count st) (error_count st + 1)
              (skipped_count st) (is_processing st))
  end.
Proof.
  unfold attempt, try_except, mbind, M_bind, put, lift, incr_success,
    incr_error, incr_skipped, set_counts, get, mret, M_ret, raise.
  cbn. rewrite <- app_assoc. cbn.
  destruct (process cfg i record (world st)) as [[[]|e] w]; cbn; [reflexivity|].
  destruct (skip_errors_var cfg); reflexivity.
Qed.

Lemma process_records_cons cfg (total i : nat) record rest st :
  process_records cfg total i (record :: rest) st =
  match attempt cfg total i record st with
  | (Returned _, st') => process_records cfg total (S i) rest st'
  | (Raised e, st') => (Raised e, st')
  end.
Proof. reflexivity. Qed.

End Attempt.

Section Loop.
Context {World : Type} {env : Env World}.
Implicit Types (cfg : Settings) (st : state World) (w : World).
Implicit Types (records : list Record).

Lemma length_outcomes cfg records : forall i w,
  length (outcomes cfg i records w) = length records.
Proof.
  induction records as [|r rest IH]; intros i w; [reflexivity|].
  cbn [outcomes]. destruct (process cfg i r w) as [o w']. cbn. now rewrite IH.
Qed.

Lemma failures_le cfg records i w :
  (length (filter (fun o => raised o = true) (outcomes cfg i records w))
   <= length records)%nat.
Proof. rewrite <- (length_outcomes cfg records i w). apply length_filter. Qed.

(** With skip-errors the loop goes through the whole batch. *)
Lemma process_records_skip cfg (total : nat) records :
  skip_errors_var cfg = true -> forall i st,
  let k := length (filter (fun o => raised o = true)
                     (outcomes cfg i records (world st))) in
  process_records cfg total i records st =
  (Returned tt,
   Build_state _ (world_after cfg i records (world st))
     (message_queue st ++ loop_messages total i (length records))
     (success_count st + (length records - k)) (error_count st + k)
     (skipped_count st + k) (is_processing st)).
Proof.
  intros Hskip. induction records as [|r rest IH]; intros i st.
  - destruct st; cbn. rewrite app_nil_r, !Nat.add_0_r. reflexivity.
  - rewrite process_records_cons, attempt_eq. cbn [outcomes world_after].
    pose proof (failures_le cfg rest (S i)) as Hle.
    destruct (process cfg i r (world st)) as [[[]|e] w'] eqn:E.
    + cbn zeta. rewrite IH. cbn [world message_queue success_count error_count
        skipped_count is_processing snd length].
      rewrite filter_cons_False by (cbn; discriminate).
      specialize (Hle w'). rewrite <- app_assoc.
      f_equal. f_equal; lia.
    + cbn zeta. rewrite Hskip, IH. cbn [world message_queue success_count
        error_count skipped_count is_processing snd length].
      rewrite filter_cons_True by reflexivity. cbn [length].
      specialize (Hle w'). rewrite <- app_assoc.
      f_equal. f_equal; lia.
Qed.

(** Up to the first failure nothing depends on the setting: [before] is
    processed without failure, then [record] raises. *)
Lemma process_records_abort cfg (total : nat) before record after e w' :
  skip_errors_var cfg = false -> forall i st,
  Forall (fun o => raised o = false) (outcomes cfg i before (world st)) ->
  process cfg (i + length before) record
    (world_after cfg i before (world st)) = (Raised e, w') ->
  process_records cfg total i (before ++ record :: after) st =
  (Raised e,
   Build_state _ w'
     (message_queue st ++ loop_messages total i (S (length before)))
     (success_count st + length before) (error_count st + 1)
     (skipped_count st) (is_processing st)).
Proof.
  intros Hskip. induction before as [|r rest IH]; intros i st Hok Hfail.
  - cbn [app length world_after] in *. rewrite Nat.add_0_r in Hfail.
    rewrite process_records_cons, attempt_eq, Hfail. cbn zeta.
    rewrite Hskip, Nat.add_0_r. reflexivity.
  - cbn [app]. rewrite process_records_cons, attempt_eq.
    cbn [outcomes world_after length] in *.
    destruct (process cfg i r (world st)) as [[[]|e'] w1] eqn:E.
    + cbn zeta. cbn [snd] in Hfail. apply Forall_cons in Hok as [_ Hok].
      replace (i + S (length rest))%nat with (S i + length rest)%nat in Hfail
        by lia.
      match goal with |- context [process_records _ _ _ _ ?s] =>
        rewrite (IH (S i) s Hok Hfail) end.
      cbn [message_queue success_count error_count skipped_count
        is_processing]. rewrite <- app_assoc. f_equal. f_equal; lia.
    + apply Forall_cons in Hok as [Hok _]. discriminate.
Qed.

(** Whatever happens, the loop only adds the two messages of each attempt
    it makes, keeps [is_processing], and returns only after the last
    record. *)
Lemma process_records_shape cfg (total : nat) records : forall i st,
  exists n,
    (n <= length records)%nat
    /\ message_queue (snd (process_records cfg total i records st))
       = message_queue st ++ loop_messages total i n
    /\ is_processing (snd (process_records cfg total i records st))
       = is_processing st
    /\ (raised (fst (process_records cfg total i records st)) = false ->
        n = length records).
Proof.
  induction records as [|r rest IH]; intros i st.
  - exists 0%nat. cbn. rewrite app_nil_r. auto.
  - rewrite process_records_cons, attempt_eq. cbn zeta.
    assert (Hgo : forall s : state World,
      message_queue s = message_queue st ++ loop_messages total i 1 ->
      is_processing s = is_processing st ->
      exists n, (n <= length (r :: rest))%nat
        /\ message_queue (snd (process_records cfg total (S i) rest s))
           = message_queue st ++ loop_messages total i n
        /\ is_processing (snd (process_records cfg total (S i) rest s))
           = is_processing st
        /\ (raised (fst (process_records cfg total (S i) rest s)) = false ->
            n = length (r :: rest))).
    { intros s Hs1 Hs2. destruct (IH (S i) s) as (n & Hn & Hq & Hp & Hr).
      exists (S n). rewrite Hq, Hp, Hs1, Hs2, <- app_assoc. cbn [length].
      split; [lia|]. split; [reflexivity|]. split; [reflexivity|].
      intros H. now rewrite Hr. }
    destruct (process cfg i r (world st)) as [[[]|e] w'] eqn:E.
    + now apply Hgo.
    + destruct (skip_errors_var cfg); [now apply Hgo|].
      exists 1%nat. cbn. split; [lia|]. repeat split. discriminate.
Qed.

End Loop.

(** ** The worker, unfolded *)

Section Unfolded.
Context {World : Type} {env : Env World}.
Implicit Types (cfg : Settings) (st : state World) (w : World).
Implicit Types (records : list Record).

Lemma report_eq cfg st :
  report cfg st =
  (Returned tt,
   Build_state _
     (if open_output_var cfg
      then snd (perform _open_output_folder (world st)) else world st)
     (message_queue st
      ++ closing (elapsed (world st)) (success_count st) (error_count st)
           (skipped_count st))
     (success_count st) (error_count st) (skipped_count st)
     (is_processing st)).
Proof.
  unfold report, when, swallow, try_except, mbind, M_bind, put, lift, get,
    mret, M_ret, closing.
  cbn. rewrite <- !app_assoc. cbn [app].
  destruct (open_output_var cfg); [|reflexivity].
  cbn. destruct (perform _open_output_folder (world st)) as [[[]|e] w']; reflexivity.
Qed.

Lemma merge_eq cfg st :
  merge cfg st =
  let queue := message_queue st ++ opening in
  let stop w :=
    Build_state _ w queue (success_count st) (error_count st)
      (skipped_count st) (is_processing st) in
  match load_records cfg (world st) with
  | (Raised e, w1) => (Raised e, stop w1)
  | (Returned records, w1) =>
      if (length records =? 0)%nat
      then (Raised (py "No records found in data source"), stop w1)
      else
        match perform (os_makedirs (VStr (output_dir cfg))) w1 with
        | (Raised e, w2) => (Raised e, stop w2)
        | (Returned _, w2) =>
            match process_records cfg (length records) 0 records
                    (Build_state _ w2 queue 0 0 0 (is_processing st)) with
            | (Raised e, st') => (Raised e, st')
            | (Returned _, st') => report cfg st'
            end
        end
  end.
Proof.
  unfold merge, mbind, M_bind, put, lift, set_counts, raise, opening.
  cbn. rewrite <- app_assoc. cbn [app].
  destruct (load_records cfg (world st)) as [[records|e] w1]; [|reflexivity].
  destruct (length records =? 0)%nat; [reflexivity|]. cbn.
  destruct (perform (os_makedirs (VStr (output_dir cfg))) w1) as [[[]|e] w2];
    [|reflexivity].
  cbn. destruct (process_records _ _ _ _ _) as [[[]|e] st']; reflexivity.
Qed.

Lemma worker_eq cfg st :
  _mail_merge_worker cfg st =
  match merge cfg st with
  | (Returned _, st') => (Returned tt, finish st')
  | (Raised e, st') =>
      (Returned tt,
       finish (Build_state _ (world st') (message_queue st' ++ failing e)
                 (success_count st') (error_count st') (skipped_count st')
                 (is_processing st')))
  end.
Proof.
  unfold _mail_merge_worker, try_finally, try_except, mbind, M_bind, put,
    failing.
  destruct (merge cfg st) as [[[]|e] st']; [reflexivity|].
  cbn. rewrite <- app_assoc. reflexivity.
Qed.

End Unfolded.

(** *** Rounding to a double *)

Section FloatFacts.
Local Open Scope Q_scope.

Lemma rne_bounds (x : Q) : (Qfloor x <= rne x <= Qfloor x + 1)%Z.
Proof.
  unfold rne. cbv zeta.
  destruct (x - inject_Z (Qfloor x) ?= 1 # 2); [destruct (Z.even _)| |]; lia.
Qed.

Lemma rne_mono (x y : Q) : x <= y -> (rne x <= rne y)%Z.
Proof.
  intros H. pose proof (Qfloor_resp_le x y H) as Hf.
  pose proof (rne_bounds x) as Bx. pose proof (rne_bounds y) as By.
  destruct (Z.eq_dec (Qfloor x) (Qfloor y)) as [E|E]; [|lia].
  unfold rne in *. cbv zeta in *. rewrite <- E in *.
  destruct (x - inject_Z (Qfloor x) ?= 1 # 2) eqn:Cx;
    destruct (y - inject_Z (Qfloor x) ?= 1 # 2) eqn:Cy;
    try (destruct (Z.even (Qfloor x)); lia); try lia; exfalso;
    clear Bx By Hf E; generalize dependent (inject_Z (Qfloor x)); intros f Cx Cy.
  - apply Qeq_alt in Cx. apply Qlt_alt in Cy. lra.
  - apply Qgt_alt in Cx. apply Qeq_alt in Cy. lra.
  - apply Qgt_alt in Cx. apply Qlt_alt in Cy. lra.
Qed.

Lemma rne_Z (z : Z) : rne (inject_Z z) = z.
Proof.
  unfold rne. cbv zeta. rewrite Qfloor_Z.
  assert (H : (inject_Z z - inject_Z z ?= 1 # 2) = Lt).
  { apply (proj1 (Qlt_alt _ _)). generalize (inject_Z z). intros q. lra. }
  now rewrite H.
Qed.

Lemma two_pos (e : Z) : 0 < 2 ^ e.
Proof. apply Qpower_0_lt. reflexivity. Qed.

Lemma two_le (a b : Z) : (a <= b)%Z -> 2 ^ a <= 2 ^ b.
Proof. intros H. apply Qpower_le_compat_l; [exact H | discriminate]. Qed.

Lemma two_lt_inv (a b : Z) : 2 ^ a < 2 ^ b -> (a < b)%Z.
Proof. intros H. apply (Qpower_lt_compat_l_inv 2); [exact H | reflexivity]. Qed.

Lemma two_succ (a : Z) : 2 ^ (a + 1) == 2 * 2 ^ a.
Proof. rewrite Qpower_plus by discriminate. change (2 ^ 1) with 2. ring. Qed.

Lemma two_Z (a : Z) : (0 <= a)%Z -> inject_Z (2 ^ a) == 2 ^ a.
Proof. intros H. now rewrite Zpower_Qpower. Qed.

Lemma ilog2_spec (x : Q) :
  0 < x -> 2 ^ ilog2 x <= x /\ x < 2 ^ (ilog2 x + 1).
Proof.
  intros Hx. unfold ilog2. cbv zeta.
  destruct x as [p d]. cbn [Qnum Qden].
  assert (Hp : (0 < p)%Z).
  { unfold Qlt in Hx. cbn in Hx. lia. }
  set (a := Z.log2 p). set (b := Z.log2 (Zpos d)).
  destruct (Z.log2_spec p Hp) as [Ha1 Ha2].
  destruct (Z.log2_spec (Zpos d) ltac:(lia)) as [Hb1 Hb2].
  fold a in Ha1, Ha2. fold b in Hb1, Hb2.
  assert (Ha0 : (0 <= a)%Z) by apply Z.log2_nonneg.
  assert (Hb0 : (0 <= b)%Z) by apply Z.log2_nonneg.
  rewrite Zle_Qle in Ha1, Hb1. rewrite Zlt_Qlt in Ha2, Hb2.
  rewrite two_Z in Ha1, Hb1 by lia.
  rewrite two_Z in Ha2, Hb2 by lia.
  change (Z.succ a) with (a + 1)%Z in Ha2.
  change (Z.succ b) with (b + 1)%Z in Hb2.
  rewrite two_succ in Ha2, Hb2.
  assert (Hq : p # d == inject_Z p / inject_Z (Zpos d)) by apply Qmake_Qdiv.
  assert (Hd : 0 < inject_Z (Zpos d)) by reflexivity.
  assert (Hab : 2 ^ a == 2 ^ (a - b) * 2 ^ b).
  { rewrite <- Qpower_plus by discriminate. now replace (a - b + b)%Z with a by lia. }
  pose proof (two_pos (a - b)) as P1. pose proof (two_pos b) as P2.
  pose proof (two_pos a) as P3.
  assert (Hup : p # d < 2 ^ (a - b + 1)).
  { rewrite Hq, two_succ. apply Qlt_shift_div_r; [exact Hd|]. nra. }
  assert (Hlo : 2 ^ (a - b - 1) <= p # d).
  { rewrite Hq. apply Qle_shift_div_l; [exact Hd|].
    assert (E : 2 ^ (a - b) == 2 * 2 ^ (a - b - 1)).
    { rewrite <- two_succ. now replace (a - b - 1 + 1)%Z with (a - b)%Z by lia. }
    pose proof (two_pos (a - b - 1)). nra. }
  destruct (Qle_bool (2 ^ (a - b)) (p # d)) eqn:T.
  - apply Qle_bool_iff in T. split; assumption.
  - split; [exact Hlo|]. replace (a - b - 1 + 1)%Z with (a - b)%Z by lia.
    apply Qnot_le_lt. intros C. apply Qle_bool_iff in C. congruence.
Qed.

Lemma ilog2_mono (x y : Q) : 0 < x -> x <= y -> (ilog2 x <= ilog2 y)%Z.
Proof.
  intros Hx Hxy.
  destruct (ilog2_spec x Hx) as [L1 _].
  destruct (ilog2_spec y ltac:(lra)) as [_ U2].
  assert (H : 2 ^ ilog2 x < 2 ^ (ilog2 y + 1)) by lra.
  apply two_lt_inv in H. lia.
Qed.

(** The scaled value of a positive number lies below 2^53, and from 2^52
    on when the exponent is not the least one. *)
Lemma scaled_bounds (x : Q) :
  0 < x ->
  let e := Z.max (ilog2 x - 52) (-1074) in
  x / 2 ^ e < 2 ^ 53 /\ (e = (ilog2 x - 52)%Z -> 2 ^ 52 <= x / 2 ^ e).
Proof.
  intros Hx e. destruct (ilog2_spec x Hx) as [L U].
  pose proof (two_pos e) as Pe. split.
  - apply Qlt_shift_div_r; [exact Pe|].
    rewrite <- Qpower_plus by discriminate.
    apply Qlt_le_trans with (1 := U). apply two_le. lia.
  - intros E. apply Qle_shift_div_l; [exact Pe|].
    rewrite <- Qpower_plus by discriminate.
    rewrite E. now replace (52 + (ilog2 x - 52))%Z with (ilog2 x) by lia.
Qed.

Lemma round_abs_mono (x y : Q) :
  0 < x -> x <= y -> round_abs x <= round_abs y.
Proof.
  intros Hx Hxy. assert (Hy : 0 < y) by lra.
  pose proof (ilog2_mono x y Hx Hxy) as Hl.
  destruct (scaled_bounds x Hx) as [Ux _].
  destruct (scaled_bounds y Hy) as [_ Ly].
  unfold round_abs. cbv zeta in *.
  set (ex := Z.max (ilog2 x - 52) (-1074)) in *.
  set (ey := Z.max (ilog2 y - 52) (-1074)) in *.
  pose proof (two_pos ex) as Px. pose proof (two_pos ey) as Py.
  destruct (Z.eq_dec ex ey) as [E|E].
  - rewrite <- E in *. apply Qmult_le_compat_r; [|lra].
    rewrite <- Zle_Qle. apply rne_mono.
    apply Qmult_le_compat_r; [exact Hxy|].
    apply Qlt_le_weak, Qinv_lt_0_compat, Px.
  - assert (Hlt : (ex < ey)%Z) by lia.
    assert (Hey : ey = (ilog2 y - 52)%Z) by lia.
    specialize (Ly Hey).
    assert (Hmx : inject_Z (rne (x / 2 ^ ex)) <= 2 ^ 53).
    { rewrite <- (two_Z 53) by lia. rewrite <- Zle_Qle.
      rewrite <- (rne_Z (2 ^ 53)). apply rne_mono.
      rewrite two_Z by lia. lra. }
    assert (Hmy : 2 ^ 52 <= inject_Z (rne (y / 2 ^ ey))).
    { rewrite <- (two_Z 52) by lia. rewrite <- Zle_Qle.
      rewrite <- (rne_Z (2 ^ 52)) at 1. apply rne_mono.
      rewrite two_Z by lia. lra. }
    apply Qle_trans with (2 ^ 53 * 2 ^ ex).
    { apply Qmult_le_compat_r; [exact Hmx | lra]. }
    apply Qle_trans with (2 ^ 52 * 2 ^ ey).
    2:{ apply Qmult_le_compat_r; [exact Hmy | lra]. }
    rewrite <- !Qpower_plus by discriminate. apply two_le. lia.
Qed.

Lemma round_abs_nonneg (x : Q) : 0 < x -> 0 <= round_abs x.
Proof.
  intros Hx. unfold round_abs. cbv zeta.
  set (e := Z.max (ilog2 x - 52) (-1074)).
  pose proof (two_pos e) as Pe.
  apply Qmult_le_0_compat; [|lra].
  change 0 with (inject_Z 0). rewrite <- Zle_Qle.
  rewrite <- (rne_Z 0). apply rne_mono.
  apply Qle_shift_div_l; [exact Pe|]. change (inject_Z 0) with 0. lra.
Qed.

Lemma round64_mono (x y : Q) : 0 <= x -> x <= y -> round64 x <= round64 y.
Proof.
  intros Hx Hxy. unfold round64.
  destruct (Qcompare_spec x 0) as [Cx|Cx|Cx];
    destruct (Qcompare_spec y 0) as [Cy|Cy|Cy]; try lra.
  - apply round_abs_nonneg. lra.
  - apply round_abs_mono; lra.
Qed.

Lemma round64_nonneg (x : Q) : 0 <= x -> 0 <= round64 x.
Proof. intros H. exact (round64_mono 0 x (Qle_refl 0) H). Qed.

Lemma round64_1 : round64 1 == 1.
Proof. vm_compute. reflexivity. Qed.

Lemma round64_100 : round64 100 == 100.
Proof. vm_compute. reflexivity. Qed.

End FloatFacts.

(** *** Progress values *)

Lemma ratio_nonneg (j total : nat) :
  (0 <= inject_Z (Z.of_nat j) / inject_Z (Z.of_nat total))%Q.
Proof.
  unfold Qdiv. apply Qmult_le_0_compat.
  - change 0%Q with (inject_Z 0). rewrite <- Zle_Qle. lia.
  - apply Qinv_le_0_compat. change 0%Q with (inject_Z 0). rewrite <- Zle_Qle. lia.
Qed.

Lemma percent_nonneg (j total : nat) : (0 <= percent j total)%Q.
Proof.
  unfold percent. apply round64_nonneg.
  pose proof (round64_nonneg _ (ratio_nonneg j total)). lra.
Qed.

Lemma percent_mono (j j' total : nat) :
  (j <= j')%nat -> (percent j total <= percent j' total)%Q.
Proof.
  intros H. unfold percent.
  assert (Hq : (inject_Z (Z.of_nat j) / inject_Z (Z.of_nat total)
                <= inject_Z (Z.of_nat j') / inject_Z (Z.of_nat total))%Q).
  { unfold Qdiv. apply Qmult_le_compat_r.
    - rewrite <- Zle_Qle. lia.
    - apply Qinv_le_0_compat. change 0%Q with (inject_Z 0).
      rewrite <- Zle_Qle. lia. }
  pose proof (round64_mono _ _ (ratio_nonneg j total) Hq) as Hr.
  pose proof (round64_nonneg _ (ratio_nonneg j total)) as H0.
  apply round64_mono; lra.
Qed.

Lemma percent_le_100 (j total : nat) :
  (j <= total)%nat -> (percent j total <= 100)%Q.
Proof.
  intros H. unfold percent.
  assert (Hq : (inject_Z (Z.of_nat j) / inject_Z (Z.of_nat total) <= 1)%Q).
  { destruct total as [|t].
    - replace j with 0%nat by lia. discriminate.
    - apply Qle_shift_div_r.
      + change 0%Q with (inject_Z 0). rewrite <- Zlt_Qlt. lia.
      + rewrite Qmult_1_l, <- Zle_Qle. lia. }
  pose proof (round64_mono _ _ (ratio_nonneg j total) Hq) as Hr.
  rewrite round64_1 in Hr.
  pose proof (round64_nonneg _ (ratio_nonneg j total)) as H0.
  rewrite <- round64_100 at 2. apply round64_mono; lra.
Qed.

(** The second of three records: the double that Python prints as
    33.33333333333333, not the third of 100. *)
Lemma percent_one_of_three :
  (percent 1 3 == 2345624805922133 # 70368744177664)%Q
  /\ (percent 1 3 < 100 # 3)%Q.
Proof. split; vm_compute; reflexivity. Qed.

Lemma progress_values_app (q1 q2 : list message) :
  progress_values (q1 ++ q2) = progress_values q1 ++ progress_values q2.
Proof. apply flat_map_app. Qed.

Lemma progress_values_loop (total i n : nat) :
  progress_values (loop_messages total i n)
  = map (fun j => percent j total) (seq i n).
Proof.
  revert i. induction n as [|n IH]; intros i; [reflexivity|].
  rewrite loop_messages_S, progress_values_app, IH. reflexivity.
Qed.

Lemma percent_sorted (total i n : nat) :
  StronglySorted Qle (map (fun j => percent j total) (seq i n)).
Proof.
  revert i. induction n as [|n IH]; intros i; [constructor|].
  cbn [seq map]. constructor; [apply IH|].
  apply Forall_map, Forall_forall. intros j Hj.
  apply list_elem_of_In, in_seq in Hj. apply percent_mono. lia.
Qed.

Lemma percent_range (total n : nat) :
  (n <= total)%nat ->
  Forall (fun v => (0 <= v <= 100)%Q) (map (fun j => percent j total) (seq 0 n)).
Proof.
  intros H. apply Forall_map, Forall_forall. intros j Hj.
  apply list_elem_of_In, in_seq in Hj. split.
  - apply percent_nonneg.
  - apply percent_le_100. lia.
Qed.

(** A run's progress values: 0, the percentages of the attempts made, and
    possibly 100. *)
Lemma run_values_sorted (total n : nat) (last : list Q) :
  (n <= total)%nat -> last = [] \/ last = [100%Q] ->
  let values := [0%Q] ++ map (fun j => percent j total) (seq 0 n) ++ last in
  StronglySorted Qle values /\ Forall (fun v => (0 <= v <= 100)%Q) values.
Proof.
  intros Hn Hlast values. subst values.
  pose proof (percent_range total n Hn) as Hr.
  assert (Hl : Forall (fun v => (0 <= v <= 100)%Q) last).
  { destruct Hlast as [-> | ->]; repeat constructor; discriminate. }
  assert (Hall : Forall (fun v => (0 <= v <= 100)%Q)
                   (map (fun j => percent j total) (seq 0 n) ++ last)).
  { apply Forall_app; auto. }
  split.
  - cbn [app]. constructor.
    + apply StronglySorted_app_2; [|apply percent_sorted|].
      * intros a b Ha Hb. rewrite Forall_forall in Hr. apply Hr in Ha.
        destruct Hlast as [-> | ->]; [inversion Hb|].
        apply list_elem_of_singleton in Hb. subst b. tauto.
      * destruct Hlast as [-> | ->]; repeat constructor.
    + eapply Forall_impl; [exact Hall|]. cbn. tauto.
  - cbn [app]. constructor; [split; discriminate | exact Hall].
Qed.

(** ** The shape of a run *)

Section Shape.
Context {World : Type} {env : Env World}.
Implicit Types (cfg : Settings) (st : state World) (w : World).
Implicit Types (records : list Record).

(** Every run is of one of two shapes. *)
Lemma worker_shape cfg w :
  let run := _mail_merge_worker cfg (initial_state w) in
  fst run = Returned tt /\ is_processing (snd run) = false
  /\ exists total n, (n <= total)%nat
  /\ ((n = total /\ exists elapsed_time,
        message_queue (snd run)
        = opening ++ loop_messages total 0 n
          ++ closing elapsed_time (success_count (snd run))
               (error_count (snd run)) (skipped_count (snd run))
          ++ ready)
      \/ (exists e,
            message_queue (snd run)
            = opening ++ loop_messages total 0 n ++ failing e ++ ready)).
Proof.
  intros run. subst run. rewrite worker_eq, merge_eq. cbn zeta.
  cbn [initial_state world message_queue success_count error_count
    skipped_count is_processing app].
  destruct (load_records cfg w) as [[records|e] w1].
  2:{ cbn. repeat split. exists 0%nat, 0%nat. split; [lia|]. right. now exists e. }
  destruct (length records =? 0)%nat.
  { cbn. repeat split. exists 0%nat, 0%nat. split; [lia|]. right. eauto. }
  destruct (perform (os_makedirs (VStr (output_dir cfg))) w1) as [[[]|e] w2].
  2:{ cbn. repeat split. exists 0%nat, 0%nat. split; [lia|]. right. now exists e. }
  match goal with |- context [process_records ?c ?t ?i ?r ?s] =>
    destruct (process_records_shape c t r i s) as (n & Hn & Hq & Hp & Hr);
    destruct (process_records c t i r s) as [[[]|e] st'] eqn:E end;
    cbn [fst snd message_queue is_processing] in *.
  - rewrite report_eq. cbn. repeat split.
    exists (length records), n. split; [exact Hn|]. left.
    split; [now apply Hr|]. exists (elapsed (world st')).
    rewrite Hq. unfold ready. now rewrite <- !app_assoc.
  - cbn. repeat split. exists (length records), n. split; [exact Hn|].
    right. exists e. rewrite Hq. unfold ready. now rewrite <- !app_assoc.
Qed.

End Shape.

(** ** The claims on the worker *)

Section Counts.
Context {World : Type} {env : Env World}.
Implicit Types (cfg : Settings) (st : state World) (w : World).
Implicit Types (records : list Record).

(** C3, amended: with skip-errors, a run that has loaded a batch of N
    records, N not zero, and created the output directory, attempts all N
    records and completes; if k of them fail, it ends with succeeded = N - k,
    errored = k and skipped = k, and reports these in the completion status
    and the result message. *)
Theorem skip_errors_run_completes cfg w w1 w2 records :
  skip_errors_var cfg = true ->
  load_records cfg w = (Returned records, w1) ->
  records <> [] ->
  perform (os_makedirs (VStr (output_dir cfg))) w1 = (Returned tt, w2) ->
  let N := length records in
  let k := failures cfg records w2 in
  let after_loop := world_after cfg 0 records w2 in
  let st := snd (_mail_merge_worker cfg (initial_state w)) in
  (k <= N)%nat
  /\ success_count st = (N - k)%nat /\ error_count st = k
  /\ skipped_count st = k
  /\ message_queue st
     = opening ++ loop_messages N 0 N
       ++ closing (elapsed after_loop) (N - k) k k ++ ready
  /\ world st
     = (if open_output_var cfg
        then snd (perform _open_output_folder after_loop) else after_loop).
Proof.
  intros Hskip Hload Hne Hdir N k after_loop st.
  split; [apply failures_le|].
  subst st. rewrite worker_eq, merge_eq. cbn zeta.
  cbn [initial_state world message_queue success_count error_count
    skipped_count is_processing app].
  rewrite Hload. destruct records as [|r rest]; [congruence|].
  cbn [length Nat.eqb]. rewrite Hdir.
  rewrite (process_records_skip cfg _ _ Hskip), report_eq.
  cbn [fst snd finish world message_queue success_count error_count
    skipped_count is_processing Nat.add].
  fold k. repeat split. unfold ready. now rewrite <- !app_assoc.
Qed.

(** C4: without skip-errors, when the records before index j are processed
    without failure and record j raises, the run aborts there: succeeded = j,
    errored = 1, the world is as the failed attempt left it, and the queue
    holds the messages of the attempts 0 to j only, then the error report. *)
Theorem abort_at_first_failure cfg w w1 w2 before record after e w' :
  skip_errors_var cfg = false ->
  load_records cfg w = (Returned (before ++ record :: after), w1) ->
  perform (os_makedirs (VStr (output_dir cfg))) w1 = (Returned tt, w2) ->
  Forall (fun o => raised o = false) (outcomes cfg 0 before w2) ->
  process cfg (length before) record (world_after cfg 0 before w2)
  = (Raised e, w') ->
  let j := length before in
  let N := length (before ++ record :: after) in
  let st := snd (_mail_merge_worker cfg (initial_state w)) in
  success_count st = j /\ error_count st = 1%nat /\ skipped_count st = 0%nat
  /\ world st = w'
  /\ message_queue st
     = opening ++ loop_messages N 0 (S j) ++ failing e ++ ready.
Proof.
  intros Hskip Hload Hdir Hok Hfail j N st.
  subst st. rewrite worker_eq, merge_eq. cbn zeta.
  cbn [initial_state world message_queue success_count error_count
    skipped_count is_processing app].
  rewrite Hload.
  destruct (length (before ++ record :: after) =? 0)%nat eqn:E.
  { apply Nat.eqb_eq in E. rewrite length_app in E. cbn in E. lia. }
  rewrite Hdir.
  rewrite (process_records_abort cfg _ before record after e w' Hskip);
    [|exact Hok|exact Hfail].
  cbn [fst snd finish world message_queue success_count error_count
    skipped_count is_processing Nat.add].
  repeat split. unfold ready. now rewrite <- !app_assoc.
Qed.

End Counts.

Lemma completion_msg_head (elapsed_time : pystr) (s e : nat) :
  exists t, completion_msg elapsed_time s e = chr "C" :: t.
Proof. unfold completion_msg. eexists. reflexivity. Qed.

Lemma status_not_summary (c : N) (text : pystr) :
  c <> chr "C" -> ~ is_summary (status (c :: text)).
Proof.
  intros Hc [(el & s & e & H) | (el & s & e & k & H)]; [|discriminate].
  destruct (completion_msg_head el s e) as [t Ht]. congruence.
Qed.

Lemma progress_not_summary (v : Q) : ~ is_summary (progress v).
Proof. intros [(el & s & e & H) | (el & s & e & k & H)]; discriminate. Qed.

Lemma error_not_summary (text : pystr) : ~ is_summary (error text).
Proof. intros [(el & s & e & H) | (el & s & e & k & H)]; discriminate. Qed.

Lemma loop_messages_no_summary (total i n : nat) :
  Forall (fun m => ~ is_summary m) (loop_messages total i n).
Proof.
  revert i. induction n as [|n IH]; intros i; [constructor|].
  rewrite loop_messages_S. apply Forall_app. split; [|apply IH].
  repeat constructor.
  - apply (status_not_summary (chr "P")). discriminate.
  - apply progress_not_summary.
Qed.

Lemma aborted_no_summary (total n : nat) (e : pystr) :
  Forall (fun m => ~ is_summary m)
    (opening ++ loop_messages total 0 n ++ failing e ++ ready).
Proof.
  repeat (apply Forall_app; split); try apply loop_messages_no_summary;
    repeat constructor;
    try apply progress_not_summary; try apply error_not_summary.
  - apply (status_not_summary (chr "I")). discriminate.
  - apply (status_not_summary (chr "E")). discriminate.
  - apply (status_not_summary (chr "R")). discriminate.
Qed.

Lemma aborted_no_success (total n : nat) (e : pystr) :
  Forall (fun m => is_success m = false)
    (opening ++ loop_messages total 0 n ++ failing e ++ ready).
Proof.
  repeat (apply Forall_app; split); repeat constructor.
  revert n. generalize 0%nat. intros i n. revert i.
  induction n as [|n IH]; intros i; [constructor|].
  rewrite loop_messages_S. apply Forall_app. split; [|apply IH].
  repeat constructor.
Qed.

Lemma loop_messages_no_success (total i n : nat) :
  Forall (fun m => is_success m = false) (loop_messages total i n).
Proof.
  revert i. induction n as [|n IH]; intros i; [constructor|].
  rewrite loop_messages_S. apply Forall_app. split; [|apply IH].
  repeat constructor.
Qed.

Lemma success_in_completed (total n : nat) (el text : pystr) (s e k : nat) :
  success text ∈ opening ++ loop_messages total 0 n ++ closing el s e k ++ ready ->
  text = result_msg el s e k.
Proof.
  rewrite !elem_of_app. intros [H|[H|[H|H]]].
  - unfold opening in H. rewrite !elem_of_cons, elem_of_nil in H.
    destruct H as [H|[H|[]]]; discriminate.
  - pose proof (loop_messages_no_success total 0 n) as F.
    rewrite Forall_forall in F. apply F in H. discriminate.
  - unfold closing in H. rewrite !elem_of_cons, elem_of_nil in H.
    destruct H as [H|[H|[H|[]]]]; try discriminate. now injection H.
  - apply list_elem_of_singleton in H. discriminate.
Qed.

Section Reports.
Context {World : Type} {env : Env World}.
Implicit Types (cfg : Settings) (st : state World) (w : World).
Implicit Types (records : list Record).

(** C5, amended: the worker never raises and every run ends with the status
    [Ready]; a run that completes reports, just before, the completion status
    and the result message with its counts and the elapsed time; a run that
    aborts reports the status [Error during mail merge] and the error message
    instead, and no summary at all. *)
Theorem terminal_report cfg w :
  let run := _mail_merge_worker cfg (initial_state w) in
  let st := snd run in
  fst run = Returned tt
  /\ is_processing st = false
  /\ (exists body, message_queue st = body ++ ready)
  /\ ((exists body elapsed_time,
         message_queue st
         = body ++ closing elapsed_time (success_count st) (error_count st)
                     (skipped_count st) ++ ready)
      \/ (exists body e,
            message_queue st = body ++ failing e ++ ready
            /\ Forall (fun m => ~ is_summary m) (message_queue st))).
Proof.
  intros run st. subst st.
  destruct (worker_shape cfg w) as (Hr & Hp & total & n & Hn & Hq).
  fold run in Hr, Hp, Hq. split; [exact Hr|]. split; [exact Hp|].
  destruct Hq as [[-> [el Hq]] | [e Hq]]; rewrite Hq.
  - split.
    + eexists. rewrite !app_assoc. reflexivity.
    + left. exists (opening ++ loop_messages total 0 total), el.
      now rewrite <- !app_assoc.
  - split.
    + eexists. rewrite !app_assoc. reflexivity.
    + right. exists (opening ++ loop_messages total 0 n), e.
      split; [now rewrite <- !app_assoc | apply aborted_no_summary].
Qed.

Lemma attempt_queue cfg (total i : nat) (record : Record) st :
  message_queue (snd (attempt cfg total i record st))
  = message_queue st ++ loop_messages total i 1.
Proof.
  rewrite attempt_eq. cbn zeta.
  destruct (process cfg i record (world st)) as [[[]|e] w'];
    [reflexivity|]. destruct (skip_errors_var cfg); reflexivity.
Qed.

Lemma first_failure_lt (os : list (outcome unit)) (j : nat) :
  first_failure os = Some j -> (j < length os)%nat.
Proof.
  revert j. induction os as [|o rest IH]; intros j; [discriminate|].
  cbn [first_failure length]. destruct (raised o).
  - intros [= <-]. lia.
  - destruct (first_failure rest) as [k|]; [|discriminate].
    intros [= <-]. specialize (IH k eq_refl). lia.
Qed.

(** The loop attempts the records up to the one it stops at, and raises
    there; otherwise it attempts them all and returns. *)
Lemma process_records_stops cfg (total : nat) (records : list Record) :
  forall i st,
  let run := process_records cfg total i records st in
  match stops_at cfg i records (world st) with
  | Some j =>
      raised (fst run) = true
      /\ message_queue (snd run)
         = message_queue st ++ loop_messages total i (S j)
  | None =>
      raised (fst run) = false
      /\ message_queue (snd run)
         = message_queue st ++ loop_messages total i (length records)
  end.
Proof.
  unfold stops_at. induction records as [|r rest IH]; intros i st; cbv zeta.
  - cbn. rewrite loop_messages_0, app_nil_r.
    destruct (skip_errors_var cfg); auto.
  - rewrite process_records_cons, attempt_eq. cbv zeta.
    cbn [outcomes length].
    destruct (process cfg i r (world st)) as [[[]|e] w'] eqn:E;
      cbn [first_failure raised].
    + match goal with
      | |- context [process_records _ _ _ _ ?s] => specialize (IH (S i) s)
      end.
      cbv zeta in IH. cbn [world message_queue] in IH.
      destruct (skip_errors_var cfg).
      * destruct IH as [Hr Hq]. split; [exact Hr|].
        rewrite Hq, <- app_assoc. reflexivity.
      * destruct (first_failure (outcomes cfg (S i) rest w')) as [j|];
          cbv [fmap option_fmap option_map]; destruct IH as [Hr Hq];
          (split; [exact Hr|]); rewrite Hq, <- app_assoc; reflexivity.
    + destruct (skip_errors_var cfg) eqn:Hskip.
      * match goal with
        | |- context [process_records _ _ _ _ ?s] => specialize (IH (S i) s)
        end.
        cbv zeta in IH. cbn [world message_queue] in IH.
        destruct IH as [Hr Hq]. split; [exact Hr|].
        rewrite Hq, <- app_assoc. reflexivity.
      * cbn [fst snd raised message_queue]. auto.
Qed.

(** C8, amended: the progress values of a run are non-decreasing and lie
    between 0 and 100; every attempt of a record enqueues exactly one progress
    event, at its start, also when the record then fails.  A run that loads
    a batch of N records, N not zero, and creates the output directory
    enqueues 0, then the float (j / N) * 100 for each record j it attempts,
    in turn, then 100 if and only if it reaches the end of the batch and
    reports the result; a run that stops before the loop enqueues 0 only. *)
Theorem progress_events cfg w :
  let st := snd (_mail_merge_worker cfg (initial_state w)) in
  let values := progress_values (message_queue st) in
  StronglySorted Qle values
  /\ Forall (fun v => (0 <= v <= 100)%Q) values
  /\ (forall total i record st0,
        progress_values (message_queue (snd (attempt cfg total i record st0)))
        = progress_values (message_queue st0) ++ [percent i total])
  /\ match load_records cfg w with
     | (Returned (record :: rest), w1) =>
         match perform (os_makedirs (VStr (output_dir cfg))) w1 with
         | (Returned _, w2) =>
             let records := record :: rest in
             let N := length records in
             let n := attempted cfg records w2 in
             (n <= N)%nat
             /\ (completes cfg records w2 = true -> n = N)
             /\ values
                = [0%Q] ++ map (fun j => percent j N) (seq 0 n)
                  ++ (if completes cfg records w2 then [100%Q] else [])
             /\ (if completes cfg records w2
                 then exists elapsed_time,
                     message_queue st
                     = opening ++ loop_messages N 0 n
                       ++ closing elapsed_time (success_count st)
                            (error_count st) (skipped_count st)
                       ++ ready
                 else exists e,
                     message_queue st
                     = opening ++ loop_messages N 0 n ++ failing e ++ ready)
         | (Raised _, _) => values = [0%Q]
         end
     | _ => values = [0%Q]
     end.
Proof.
  intros st values.
  assert (Hshape : exists total n last,
    (n <= total)%nat /\ (last = [] \/ last = [100%Q])
    /\ values = [0%Q] ++ map (fun j => percent j total) (seq 0 n) ++ last).
  { subst values st.
    destruct (worker_shape cfg w) as (_ & _ & total & n & Hn & Hq).
    cbn zeta in Hq. exists total, n.
    destruct Hq as [[-> [el Hq]] | [e Hq]]; rewrite Hq.
    - exists [100%Q]. split; [lia|]. split; [now right|].
      rewrite !progress_values_app, progress_values_loop. reflexivity.
    - exists []. split; [lia|]. split; [now left|].
      rewrite !progress_values_app, progress_values_loop. reflexivity. }
  destruct Hshape as (total & n & last & Hn & Hlast & Hv).
  destruct (run_values_sorted total n last Hn Hlast) as [Hs Hr].
  cbn zeta in Hs, Hr. rewrite <- Hv in Hs, Hr.
  split; [exact Hs|]. split; [exact Hr|]. split.
  { intros total' i record st0.
    now rewrite attempt_queue, progress_values_app. }
  clear total n last Hn Hlast Hv Hs Hr. subst values st.
  rewrite worker_eq, merge_eq. cbn zeta.
  cbn [initial_state world message_queue success_count error_count
    skipped_count is_processing app].
  destruct (load_records cfg w) as [[[|record rest]|e] w1];
    [reflexivity | | reflexivity].
  cbn [length Nat.eqb].
  destruct (perform (os_makedirs (VStr (output_dir cfg))) w1) as [[[]|e] w2];
    [|reflexivity].
  cbv zeta. set (records := record :: rest).
  assert (Hle : (attempted cfg records w2 <= length records)%nat).
  { unfold attempted, stops_at. destruct (skip_errors_var cfg); [lia|].
    destruct (first_failure _) as [j|] eqn:E; [|lia].
    apply first_failure_lt in E. rewrite length_outcomes in E. lia. }
  split; [exact Hle|].
  assert (Hall : completes cfg records w2 = true ->
                 attempted cfg records w2 = length records).
  { unfold completes, attempted. destruct (stops_at _ _ _ _);
      [discriminate | reflexivity]. }
  split; [exact Hall|].
  match goal with
  | |- context [process_records ?c ?t ?i ?r ?s] =>
      pose proof (process_records_stops c t r i s) as Hp;
      destruct (process_records c t i r s) as [[[]|e] st'] eqn:E
  end;
    cbv zeta in Hp; cbn [world message_queue fst snd raised] in Hp;
    unfold completes, attempted;
    change (length (record :: rest)) with (length records) in *;
    destruct (stops_at cfg 0 records w2) as [j|];
    destruct Hp as [Hr Hq]; try discriminate.
  - rewrite report_eq.
    cbn [fst snd finish world message_queue success_count error_count
      skipped_count is_processing].
    rewrite Hq. split.
    + rewrite <- !app_assoc, !progress_values_app, progress_values_loop.
      reflexivity.
    + exists (elapsed (world st')). unfold ready.
      now rewrite <- !app_assoc.
  - cbn [fst snd finish world message_queue success_count error_count
      skipped_count is_processing].
    rewrite Hq. split.
    + rewrite <- !app_assoc, !progress_values_app, progress_values_loop.
      reflexivity.
    + exists e. unfold ready. now rewrite <- !app_assoc.
Qed.

(** C10: with skip-errors, every failing attempt is caught and adds one to
    the errored and to the skipped counter; at the end of the run the two are
    equal, and a result message, when there is one, is built from that one
    number for both. *)
Theorem errored_equals_skipped cfg w :
  skip_errors_var cfg = true ->
  let st := snd (_mail_merge_worker cfg (initial_state w)) in
  error_count st = skipped_count st
  /\ (forall total i record st0,
        raised (fst (process cfg i record (world st0))) = true ->
        let st1 := snd (attempt cfg total i record st0) in
        fst (attempt cfg total i record st0) = Returned tt
        /\ error_count st1 = (error_count st0 + 1)%nat
        /\ skipped_count st1 = (skipped_count st0 + 1)%nat)
  /\ (forall text,
        success text ∈ message_queue st ->
        exists elapsed_time,
          text = result_msg elapsed_time (success_count st) (error_count st)
                   (error_count st)).
Proof.
  intros Hskip st.
  assert (Hattempt : forall total i record st0,
        raised (fst (process cfg i record (world st0))) = true ->
        let st1 := snd (attempt cfg total i record st0) in
        fst (attempt cfg total i record st0) = Returned tt
        /\ error_count st1 = (error_count st0 + 1)%nat
        /\ skipped_count st1 = (skipped_count st0 + 1)%nat).
  { intros total i record st0 H. rewrite attempt_eq. cbn zeta.
    destruct (process cfg i record (world st0)) as [[[]|e] w']; [discriminate|].
    rewrite Hskip. cbn. auto. }
  subst st. rewrite worker_eq, merge_eq. cbn zeta.
  cbn [initial_state world message_queue success_count error_count
    skipped_count is_processing app].
  destruct (load_records cfg w) as [[records|e] w1].
  2:{ cbn [fst snd finish error_count skipped_count message_queue].
      split; [reflexivity|]. split; [exact Hattempt|]. intros text H.
      apply (Forall_forall (fun m => is_success m = false)) with (x := success text) in H;
        [discriminate|]. apply (aborted_no_success 0 0 e). }
  destruct (length records =? 0)%nat.
  { cbn [fst snd finish error_count skipped_count message_queue].
    split; [reflexivity|]. split; [exact Hattempt|]. intros text H.
    apply (Forall_forall (fun m => is_success m = false)) with (x := success text) in H;
      [discriminate|]. apply (aborted_no_success 0 0). }
  destruct (perform (os_makedirs (VStr (output_dir cfg))) w1) as [[[]|e] w2].
  2:{ cbn [fst snd finish error_count skipped_count message_queue].
      split; [reflexivity|]. split; [exact Hattempt|]. intros text H.
      apply (Forall_forall (fun m => is_success m = false)) with (x := success text) in H;
        [discriminate|]. apply (aborted_no_success 0 0 e). }
  rewrite (process_records_skip cfg _ _ Hskip), report_eq.
  cbn [fst snd finish world message_queue success_count error_count
    skipped_count is_processing Nat.add].
  split; [reflexivity|]. split; [exact Hattempt|]. intros text H.
  unfold ready in H. rewrite <- !app_assoc in H.
  now exists (elapsed (world_after cfg 0 records w2)); apply success_in_completed in H.
Qed.

End Reports.

Ltac in_calls :=
  match goal with
  | H : _ ∈ _ |- _ =>
      rewrite !elem_of_cons, elem_of_nil in H;
      repeat (destruct H as [H|H]; try discriminate);
      try contradiction; now injection H
  end.

(** C9: the Word folder of a record is its [DocFolderPath] cell and the PDF
    folder its [PdfFolderPath] cell when the record has them, and the output
    directory of the run otherwise; these are the folders that are created,
    that the Word document is saved in, and that the PDF is converted to. *)
Theorem output_directories (cfg : Settings) (i : nat) (record : Record) :
  let doc_dir :=
    match record !! py "DocFolderPath" with
    | Some cell => cell
    | None => VStr (output_dir cfg)
    end in
  let pdf_dir :=
    match record !! py "PdfFolderPath" with
    | Some cell => cell
    | None => VStr (output_dir cfg)
    end in
  let stem := _generate_filename record (filename_pattern_var cfg) i in
  let calls := snd (process (env := recorder) cfg i record []) in
  doc_folder_path cfg record = doc_dir
  /\ pdf_folder_path cfg record = pdf_dir
  /\ os_makedirs doc_dir ∈ calls
  /\ (if create_word_var cfg
      then save doc_dir (stem ++ py ".docx") ∈ calls
           /\ forall folder name, save folder name ∈ calls -> folder = doc_dir
      else True)
  /\ (if create_pdf_var cfg
      then os_makedirs pdf_dir ∈ calls
           /\ exists folder name,
                convert folder name pdf_dir (stem ++ py ".pdf") ∈ calls
      else True)
  /\ (forall folder name pdf_folder pdf_name,
        convert folder name pdf_folder pdf_name ∈ calls -> pdf_folder = pdf_dir).
Proof.
  intros doc_dir pdf_dir stem calls.
  assert (Hd : doc_folder_path cfg record = doc_dir).
  { unfold doc_folder_path, doc_dir. now destruct (record !! py "DocFolderPath"). }
  assert (Hp : pdf_folder_path cfg record = pdf_dir).
  { unfold pdf_folder_path, pdf_dir. now destruct (record !! py "PdfFolderPath"). }
  split; [exact Hd|]. split; [exact Hp|].
  subst calls. unfold process. rewrite Hd, Hp. fold stem.
  destruct (create_word_var cfg), (create_pdf_var cfg), (backup_existing_var cfg);
    cbv [mbind M_bind mret M_ret when swallow try_except perform recorder snd];
    cbn [app]; repeat split; try exact I;
    try (repeat first [apply list_elem_of_here | apply list_elem_of_further]; fail);
    try (do 2 eexists;
         repeat first [apply list_elem_of_here | apply list_elem_of_further]; fail);
    intros; in_calls.
Qed.

(** ** Runs in the scripted environment *)

(** Two runs with skip-errors set that abort though no record fails: an
    empty batch, N = 0 and k = 0; and a batch of one record, N = 1 and
    k = 0, when the output directory cannot be created: the only call made
    is that [os.makedirs], and the processing of the record would not
    raise.  Neither run reports a result. *)
Lemma skip_errors_run_can_abort :
  (let st := snd (sample_run true []) in
   message_queue st
   = opening ++ failing (py "No records found in data source") ++ ready
   /\ Forall (fun m => is_success m = false) (message_queue st))
  /\ (let st :=
        snd (_mail_merge_worker
               (env := faulty (Returned [filed_record]) no_output_dir)
               (sample_settings true) (initial_state [])) in
      failures (env := faulty (Returned [filed_record]) no_output_dir)
        (sample_settings true) [filed_record] [] = 0%nat
      /\ world st = [os_makedirs (VStr (py "out"))]
      /\ message_queue st
         = opening ++ failing (py "Read-only file system") ++ ready
      /\ Forall (fun m => is_success m = false) (message_queue st)).
Proof.
  split.
  - assert (E : message_queue (snd (sample_run true []))
                = opening ++ loop_messages 0 0 0
                  ++ failing (py "No records found in data source") ++ ready)
      by reflexivity.
    split; [exact E|]. cbn zeta. rewrite E. apply aborted_no_success.
  - assert (E : message_queue
                  (snd (_mail_merge_worker
                          (env := faulty (Returned [filed_record]) no_output_dir)
                          (sample_settings true) (initial_state [])))
                = opening ++ loop_messages 0 0 0
                  ++ failing (py "Read-only file system") ++ ready)
      by reflexivity.
    split; [vm_compute; reflexivity|]. split; [reflexivity|].
    split; [exact E|]. cbn zeta. rewrite E. apply aborted_no_success.
Qed.

Lemma skip_errors_run_completes_witness :
  let st := snd (sample_run true [ann_lee; bad_record; no_names]) in
  success_count st = 2%nat /\ error_count st = 1%nat
  /\ skipped_count st = 1%nat.
Proof.
  destruct (skip_errors_run_completes (env := scripted [ann_lee; bad_record; no_names])
              (sample_settings true) [] [] [os_makedirs (VStr (py "out"))]
              [ann_lee; bad_record; no_names] eq_refl eq_refl
              ltac:(discriminate) eq_refl)
    as (_ & Hs & He & Hk & _).
  split; [exact Hs|]. split; [exact He | exact Hk].
Defined.

Lemma abort_at_first_failure_witness :
  let st := snd (sample_run false [ann_lee; bad_record; no_names]) in
  success_count st = 1%nat /\ error_count st = 1%nat
  /\ message_queue st
     = opening ++ loop_messages 3 0 2 ++ failing (py "boom") ++ ready.
Proof.
  assert (Hok : Forall (fun o : outcome unit => raised o = false)
                  (outcomes (env := scripted [ann_lee; bad_record; no_names])
                     (sample_settings false) 0 [ann_lee]
                     [os_makedirs (VStr (py "out"))])).
  { vm_compute. repeat constructor. }
  destruct (abort_at_first_failure (env := scripted [ann_lee; bad_record; no_names])
              (sample_settings false) [] [] [os_makedirs (VStr (py "out"))]
              [ann_lee] bad_record [no_names] (py "boom") _
              eq_refl eq_refl eq_refl Hok eq_refl)
    as (Hs & He & _ & _ & Hq).
  split; [exact Hs|]. split; [exact He | exact Hq].
Defined.

(** A batch of one record that fails, skip-errors off: the caller gets the
    error message and nothing that holds a count or the elapsed time. *)
Lemma aborted_run_has_no_summary :
  let st := snd (sample_run false [bad_record]) in
  error (py "Mail merge failed: boom") ∈ message_queue st
  /\ ~ (exists m, m ∈ message_queue st /\ is_summary m).
Proof.
  assert (E : message_queue (snd (sample_run false [bad_record]))
              = opening ++ loop_messages 1 0 1 ++ failing (py "boom") ++ ready)
    by reflexivity.
  cbn zeta. rewrite E. split.
  - rewrite !elem_of_app. right. right. left. unfold failing.
    apply list_elem_of_further, list_elem_of_here.
  - intros (m & Hm & Hs). revert Hs.
    pose proof (aborted_no_summary 1 1 (py "boom")) as F.
    rewrite Forall_forall in F. now apply F.
Qed.

(** A batch of one record, processed without failure: three progress
    events. *)
Lemma three_events_for_one_record :
  let st := snd (sample_run true [ann_lee]) in
  success_count st = 1%nat
  /\ progress_values (message_queue st) = [0%Q; percent 0 1; 100%Q]
  /\ ~ (length (progress_values (message_queue st)) <= success_count st)%nat.
Proof.
  split; [reflexivity|]. split; [reflexivity|].
  change (~ (3 <= 1)%nat). lia.
Qed.

Lemma errored_equals_skipped_witness :
  let st := snd (sample_run true [ann_lee; bad_record]) in
  skip_errors_var (sample_settings true) = true
  /\ error_count st = 1%nat /\ skipped_count st = 1%nat.
Proof.
  split; [reflexivity|].
  destruct (errored_equals_skipped (env := scripted [ann_lee; bad_record])
              (sample_settings true) [] eq_refl) as (H & _ & _).
  split; [reflexivity|]. exact (eq_trans (eq_sym H) eq_refl).
Defined.

(** * Properties of more of the code *)

Section StripEnds.
Variable p : N -> bool.

Lemma strip_lstrip (s : pystr) : lstrip p (strip p s) = strip p s.
Proof. unfold strip. apply lstrip_rstrip, lstrip_idemp. Qed.

Lemma strip_rstrip (s : pystr) : rstrip p (strip p s) = strip p s.
Proof. unfold strip. apply rstrip_idemp. Qed.

Lemma strip_first (s t : pystr) (c : N) : strip p s = c :: t -> p c = false.
Proof.
  intros H. pose proof (strip_lstrip s) as E. rewrite H in E.
  exact (lstrip_head p _ _ _ E).
Qed.

Lemma strip_last (s t : pystr) (c : N) : strip p s = t ++ [c] -> p c = false.
Proof.
  intros H. pose proof (strip_rstrip s) as E. rewrite H in E.
  unfold rstrip in E. apply (f_equal (@rev N)) in E.
  rewrite rev_involutive, rev_app_distr in E. cbn [rev app] in E.
  exact (lstrip_head p _ _ _ E).
Qed.

(** A string with clean ends is left alone. *)
Lemma lstrip_id (s : pystr) :
  (forall c t, s = c :: t -> p c = false) -> lstrip p s = s.
Proof.
  destruct s as [|c t]; [reflexivity|]. intros H.
  apply lstrip_fixed, (H c t eq_refl).
Qed.

Lemma strip_id (s : pystr) :
  (forall c t, s = c :: t -> p c = false) ->
  (forall t c, s = t ++ [c] -> p c = false) ->
  strip p s = s.
Proof.
  intros Hf Hl. unfold strip. rewrite (lstrip_id s Hf).
  unfold rstrip. rewrite lstrip_id; [apply rev_involutive|].
  intros c t E. apply (Hl (rev t) c).
  apply (f_equal (@rev N)) in E. rewrite rev_involutive in E. exact E.
Qed.
End StripEnds.

Lemma clean_filename_cases (filename : pyval) :
  let cleaned := strip (char_in (py " .")) (sub_invalid (str filename)) in
  (cleaned = [] /\ _clean_filename filename = py "document")
  \/ (cleaned <> [] /\ _clean_filename filename = cleaned).
Proof.
  intros cleaned. unfold _clean_filename. fold cleaned.
  destruct cleaned; [left | right]; split; try reflexivity; discriminate.
Qed.

Lemma document_is_clean : clean_name (py "document").
Proof.
  split; [discriminate|]. split; [repeat constructor|]. split.
  - intros c t [= <- _]. reflexivity.
  - intros t c E. apply (f_equal (@rev N)) in E.
    rewrite rev_app_distr in E. injection E as <- _. reflexivity.
Qed.

Lemma clean_filename_is_clean (filename : pyval) :
  clean_name (_clean_filename filename).
Proof.
  destruct (clean_filename_cases filename) as [[_ ->] | [Hne ->]];
    [apply document_is_clean|].
  split; [exact Hne|]. split; [apply strip_Forall, sub_invalid_valid|]. split.
  - intros c t E. exact (strip_first _ _ _ _ E).
  - intros t c E. exact (strip_last _ _ _ _ E).
Qed.

Lemma clean_filename_fixes (s : pystr) :
  clean_name s -> _clean_filename (VStr s) = s.
Proof.
  intros (Hne & Hv & Hf & Hl). unfold _clean_filename. cbn [str].
  rewrite (sub_invalid_id s Hv), (strip_id _ s Hf Hl).
  now destruct s.
Qed.

(** X1: whatever it is given, [_clean_filename] returns a name that is not
    empty, holds none of the nine characters of the class, and neither begins
    nor ends with a space or a dot. *)
Theorem clean_filename_gives_clean_name (filename : pyval) :
  let name := _clean_filename filename in
  name <> []
  /\ Forall (fun c => char_in invalid_chars c = false) name
  /\ (forall c t, name = c :: t -> c <> chr " " /\ c <> chr ".")
  /\ (forall t c, name = t ++ [c] -> c <> chr " " /\ c <> chr ".").
Proof.
  intros name. destruct (clean_filename_is_clean filename) as (H1 & H2 & H3 & H4).
  fold name in H1, H2, H3, H4.
  assert (E : forall c, char_in (py " .") c = false -> c <> chr " " /\ c <> chr ".").
  { intros c Hc. split; intros ->; discriminate. }
  repeat split; auto; intros ->.
  - now destruct (E _ (H3 _ _ H)).
  - now destruct (E _ (H3 _ _ H)).
  - now destruct (E _ (H4 _ _ H)).
  - now destruct (E _ (H4 _ _ H)).
Qed.

(** X2: the names that [_clean_filename] returns unchanged are exactly the
    clean ones: not empty, none of the nine characters, no space or dot at
    either end. *)
Theorem clean_filename_fixed_points (s : pystr) :
  _clean_filename (VStr s) = s <-> clean_name s.
Proof.
  split.
  - intros E. rewrite <- E. apply clean_filename_is_clean.
  - apply clean_filename_fixes.
Qed.

Lemma generate_filename_cases (record : Record) (pattern : pystr) (index : nat) :
  let filename := fold_left (substitute record) (findall pattern) pattern in
  (( only_underscores filename \/ blank filename)
   /\ _generate_filename record pattern index = fallback_stem index)
  \/ (~ only_underscores filename /\ ~ blank filename
      /\ _generate_filename record pattern index = filename).
Proof.
  intros filename. unfold _generate_filename. fold filename.
  assert (Hu : is_empty (strip (char_in (py "_")) filename) = true
               <-> only_underscores filename).
  { rewrite is_empty_true, strip_nil_iff. unfold only_underscores.
    apply Forall_iff. intros c. apply (char_in_singleton (chr "_")). }
  assert (Hb : pystr_eqb (strip isspace filename) [] = true <-> blank filename).
  { unfold pystr_eqb. rewrite bool_decide_eq_true. apply strip_nil_iff. }
  destruct (is_empty _) eqn:E1; cbn [orb].
  - left. split; [left; now apply Hu | reflexivity].
  - destruct (pystr_eqb _ _) eqn:E2.
    + left. split; [right; now apply Hb | reflexivity].
    + right. split; [|split; [|reflexivity]].
      * intros H. apply Hu in H. discriminate.
      * intros H. apply Hb in H. discriminate.
Qed.

Lemma fallback_stem_not_blank (index : nat) : ~ blank (fallback_stem index).
Proof.
  destruct (fallback_stem_head index) as [t ->].
  intros H. apply Forall_cons in H as [H _]. discriminate.
Qed.

(** X3: the stem of [_generate_filename] is never made of white space only:
    a substituted pattern that is blank gives the fallback
    [document_<index+1>]. *)
Theorem generate_filename_never_blank (record : Record) (pattern : pystr)
    (index : nat) :
  let filename := fold_left (substitute record) (findall pattern) pattern in
  let stem := _generate_filename record pattern index in
  ~ blank stem /\ (blank filename -> stem = fallback_stem index).
Proof.
  intros filename stem. subst stem filename.
  destruct (generate_filename_cases record pattern index)
    as [[H ->] | (Hu & Hb & ->)].
  - split; [apply fallback_stem_not_blank | reflexivity].
  - split; [exact Hb | intros H; contradiction].
Qed.

(** X4: a pattern in which the expression finds no placeholder is returned
    as it is, unless it is blank or underscores only: the text of the pattern
    itself is not cleaned, so a slash or a colon in it reaches the file
    name. *)
Theorem pattern_without_placeholder (record : Record) (pattern : pystr)
    (index : nat) :
  findall pattern = [] -> ~ only_underscores pattern -> ~ blank pattern ->
  _generate_filename record pattern index = pattern.
Proof.
  intros Hf Hu Hb.
  destruct (generate_filename_cases record pattern index)
    as [[H _] | (_ & _ & ->)]; rewrite Hf in *; cbn [fold_left] in *.
  - tauto.
  - reflexivity.
Qed.

Lemma pattern_without_placeholder_witness :
  _generate_filename ann_lee (py "2024/letters:{a") 0 = py "2024/letters:{a".
Proof.
  apply pattern_without_placeholder.
  - reflexivity.
  - intros H. apply Forall_cons in H as [H _]. discriminate.
  - intros H. apply Forall_cons in H as [H _]. discriminate.
Defined.

Lemma substitute_present (record : Record) (filename var : pystr) (cell : pyval) :
  record !! var = Some cell ->
  substitute record filename var
  = replace filename (placeholder var)
      (_clean_filename (VStr (strip isspace (str cell)))).
Proof. intros H. unfold substitute. now rewrite H. Qed.

(** X5: for a field the record has, a pattern made of its placeholder
    between two texts without opening brace resolves to the cell, stripped of
    white space and cleaned by [_clean_filename], between these texts, unless
    that is blank or underscores only. *)
Theorem present_field_is_cleaned (record : Record) (var pre post : pystr)
    (cell : pyval) (index : nat) :
  record !! var = Some cell ->
  var <> [] -> Forall (fun c => c <> chr "}") var ->
  Forall (fun c => c <> chr "{") pre -> Forall (fun c => c <> chr "{") post ->
  let value := _clean_filename (VStr (strip isspace (str cell))) in
  ~ only_underscores (pre ++ value ++ post) -> ~ blank (pre ++ value ++ post) ->
  _generate_filename record (pre ++ placeholder var ++ post) index
  = pre ++ value ++ post.
Proof.
  intros Hcell Hne Hvar Hpre Hpost value Hu Hb. subst value.
  destruct (generate_filename_cases record (pre ++ placeholder var ++ post) index)
    as [[H _] | (_ & _ & ->)];
    rewrite findall_app_no_open, findall_match, (findall_no_open post) in *
      by assumption;
    cbn [fold_left] in *;
    rewrite (substitute_present _ _ _ _ Hcell), replace_placeholder in *
      by assumption.
  - tauto.
  - reflexivity.
Qed.

Lemma present_field_is_cleaned_witness :
  _generate_filename labelled_record (py "for_{Doc Name}.final") 3
  = py "for_Dr. A_B.final".
Proof.
  apply (present_field_is_cleaned labelled_record (py "Doc Name") (py "for_")
           (py ".final") (VStr (py " Dr. A/B ")) 3%nat eq_refl);
    try (repeat constructor; discriminate); try discriminate.
  - intros H. apply Forall_cons in H as [H _]. discriminate.
  - intros H. apply Forall_cons in H as [H _]. discriminate.
Defined.

Lemma replace_first_name (new : pystr) :
  replace default_pattern (placeholder (py "First Name")) new
  = new ++ py "_{Last Name}".
Proof. vm_compute. reflexivity. Qed.

Lemma replace_last_name (a new : pystr) :
  Forall (fun c => c <> chr "{") a ->
  replace (a ++ py "_{Last Name}") (placeholder (py "Last Name")) new
  = a ++ py "_" ++ new.
Proof.
  intros Ha.
  change (py "_{Last Name}") with (py "_" ++ placeholder (py "Last Name") ++ []).
  rewrite app_assoc, replace_placeholder.
  - now rewrite app_nil_r, <- app_assoc.
  - apply Forall_app. split; [exact Ha | repeat constructor; discriminate].
  - constructor.
Qed.

Lemma only_underscores_joined (a b : pystr) :
  only_underscores (a ++ py "_" ++ b)
  <-> only_underscores a /\ only_underscores b.
Proof.
  unfold only_underscores. rewrite !Forall_app. split.
  - tauto.
  - intros [Ha Hb]. repeat split; auto. repeat constructor.
Qed.

Lemma joined_not_blank (a b : pystr) : ~ blank (a ++ py "_" ++ b).
Proof.
  intros H. apply Forall_app in H as [_ H]. apply Forall_app in H as [H _].
  apply Forall_cons in H as [H _]. discriminate.
Qed.

(** X6: with the default pattern, a record that has both names resolves to
    the cleaned first name, an underscore and the cleaned last name; to the
    fallback [document_<index+1>] when both cleaned names are underscores
    only.  The cleaned first name must hold no opening brace. *)
Theorem default_pattern_stem (record : Record) (first last : pyval)
    (index : nat) :
  record !! py "First Name" = Some first ->
  record !! py "Last Name" = Some last ->
  let a := _clean_filename (VStr (strip isspace (str first))) in
  let b := _clean_filename (VStr (strip isspace (str last))) in
  Forall (fun c => c <> chr "{") a ->
  _generate_filename record default_pattern index
  = if decide (only_underscores a /\ only_underscores b)
    then fallback_stem index
    else a ++ py "_" ++ b.
Proof.
  intros Hf Hl a b Ha.
  assert (E : fold_left (substitute record) (findall default_pattern)
                default_pattern = a ++ py "_" ++ b).
  { change (findall default_pattern) with [py "First Name"; py "Last Name"].
    cbn [fold_left].
    rewrite (substitute_present _ _ _ _ Hf), replace_first_name.
    rewrite (substitute_present _ _ _ _ Hl). fold a b.
    now apply replace_last_name. }
  destruct (generate_filename_cases record default_pattern index)
    as [[H ->] | (Hu & _ & ->)]; rewrite E in *.
  - destruct H as [H | H]; [|now apply joined_not_blank in H].
    apply only_underscores_joined in H. now rewrite decide_True.
  - rewrite decide_False; [reflexivity|].
    intros H. apply Hu. now apply only_underscores_joined.
Qed.

Lemma default_pattern_stem_witness :
  _generate_filename labelled_record default_pattern 7 = py "Ann_Lee".
Proof.
  rewrite (default_pattern_stem labelled_record (VStr (py "Ann"))
             (VStr (py "Lee")) 7%nat eq_refl eq_refl).
  - reflexivity.
  - repeat constructor; discriminate.
Defined.

Lemma startswith_iff (prefix s : pystr) :
  startswith prefix s = true <-> exists rest, s = prefix ++ rest.
Proof.
  revert s. induction prefix as [|a prefix IH]; intros s.
  - split; [intros _; now exists s | reflexivity].
  - destruct s as [|c s]; cbn [startswith].
    + split; [discriminate | intros [rest H]; discriminate].
    + rewrite andb_true_iff, N.eqb_eq, IH. split.
      * intros [-> [rest ->]]. now exists rest.
      * intros [rest [= -> ->]]. eauto.
Qed.

(** [endswith] is the test for a suffix. *)
Lemma endswith_iff (suffix s : pystr) :
  endswith suffix s = true <-> exists front, s = front ++ suffix.
Proof.
  unfold endswith. rewrite startswith_iff. split.
  - intros [rest H]. exists (rev rest).
    apply (f_equal (@rev N)) in H.
    now rewrite rev_involutive, rev_app_distr, rev_involutive in H.
  - intros [front ->]. exists (rev front). apply rev_app_distr.
Qed.

Section Aborts.
Context {World : Type} {env : Env World}.
Implicit Types (cfg : Settings) (st : state World) (w : World).
Implicit Types (records : list Record).

Lemma aborted_before_loop cfg w w1 (e : pystr) :
  (load_records cfg w = (Raised e, w1)
   \/ (exists records, load_records cfg w = (Returned records, w1)
                       /\ records = [] /\ e = py "No records found in data source")
   \/ (exists records w0, load_records cfg w = (Returned records, w0)
                          /\ records <> []
                          /\ perform (os_makedirs (VStr (output_dir cfg))) w0
                             = (Raised e, w1))) ->
  _mail_merge_worker cfg (initial_state w)
  = (Returned tt,
     Build_state _ w1 (opening ++ failing e ++ ready) 0 0 0 false).
Proof.
  intros H. rewrite worker_eq, merge_eq. cbn zeta.
  cbn [initial_state world message_queue success_count error_count
    skipped_count is_processing app].
  destruct H as [H | [(records & H & -> & ->) | (records & w0 & H & Hne & Hd)]];
    rewrite H.
  - unfold finish, ready. cbn [world message_queue success_count error_count
      skipped_count]. now rewrite <- !app_assoc.
  - unfold finish, ready. cbn [length Nat.eqb world message_queue success_count
      error_count skipped_count]. now rewrite <- !app_assoc.
  - destruct records as [|r rest]; [congruence|]. cbn [length Nat.eqb].
    rewrite Hd. unfold finish, ready.
    cbn [world message_queue success_count error_count skipped_count].
    now rewrite <- !app_assoc.
Qed.

(** X7: a data source whose path ends with none of [.csv], [.xlsx] and
    [.xls], in these very letters, aborts the run with the message
    [Unsupported data source format] before anything outside is called: the
    world is untouched, no record is counted, and [is_processing] is
    reset. *)
Theorem unsupported_format_aborts cfg w :
  endswith (py ".csv") (data_source_path cfg) = false ->
  endswith (py ".xlsx") (data_source_path cfg) = false ->
  endswith (py ".xls") (data_source_path cfg) = false ->
  let st := snd (_mail_merge_worker cfg (initial_state w)) in
  world st = w
  /\ message_queue st
     = opening ++ failing (py "Unsupported data source format") ++ ready
  /\ success_count st = 0%nat /\ error_count st = 0%nat
  /\ is_processing st = false.
Proof.
  intros H1 H2 H3 st. subst st.
  rewrite (aborted_before_loop cfg w w (py "Unsupported data source format")).
  - repeat split.
  - left. unfold load_records. now rewrite H1, H2, H3.
Qed.

(** X8: when the reading of the data source raises, the run reports that
    exception as [Mail merge failed: ...], attempts no record, and resets
    [is_processing]. *)
Theorem load_failure_aborts cfg w w1 (e : pystr) :
  load_records cfg w = (Raised e, w1) ->
  let st := snd (_mail_merge_worker cfg (initial_state w)) in
  world st = w1
  /\ message_queue st = opening ++ failing e ++ ready
  /\ success_count st = 0%nat /\ error_count st = 0%nat
  /\ is_processing st = false.
Proof.
  intros H st. subst st. rewrite (aborted_before_loop cfg w w1 e) by auto.
  repeat split.
Qed.

(** X9: when the output directory cannot be created, the run aborts with
    that exception before the first record: the world is as the failed
    [os.makedirs] left it and no record is counted. *)
Theorem output_dir_failure_aborts cfg w w0 w1 records (e : pystr) :
  load_records cfg w = (Returned records, w0) ->
  records <> [] ->
  perform (os_makedirs (VStr (output_dir cfg))) w0 = (Raised e, w1) ->
  let st := snd (_mail_merge_worker cfg (initial_state w)) in
  world st = w1
  /\ message_queue st = opening ++ failing e ++ ready
  /\ success_count st = 0%nat /\ error_count st = 0%nat
  /\ is_processing st = false.
Proof.
  intros H Hne Hd st. subst st. rewrite (aborted_before_loop cfg w w1 e).
  - repeat split.
  - right. right. now exists records, w0.
Qed.

End Aborts.

Lemma unsupported_format_aborts_witness :
  message_queue
    (snd (_mail_merge_worker (env := scripted [ann_lee])
            (pdf_only_settings "patients.CSV") (initial_state [])))
  = opening ++ failing (py "Unsupported data source format") ++ ready.
Proof.
  destruct (unsupported_format_aborts (env := scripted [ann_lee])
              (pdf_only_settings "patients.CSV") [] eq_refl eq_refl eq_refl)
    as (_ & H & _).
  exact H.
Defined.

Lemma load_failure_aborts_witness :
  message_queue
    (snd (_mail_merge_worker
            (env := faulty (Raised (py "No columns to parse from file"))
                      (fun _ => None))
            (sample_settings true) (initial_state [])))
  = opening ++ failing (py "No columns to parse from file") ++ ready.
Proof.
  destruct (load_failure_aborts
              (env := faulty (Raised (py "No columns to parse from file"))
                        (fun _ => None))
              (sample_settings true) [] []
              (py "No columns to parse from file") eq_refl) as (_ & H & _).
  exact H.
Defined.

Lemma output_dir_failure_aborts_witness :
  world
    (snd (_mail_merge_worker
            (env := faulty (Returned [ann_lee]) no_makedirs)
            (sample_settings true) (initial_state [])))
  = [os_makedirs (VStr (py "out"))].
Proof.
  destruct (output_dir_failure_aborts
              (env := faulty (Returned [ann_lee]) no_makedirs)
              (sample_settings true) [] [] [os_makedirs (VStr (py "out"))]
              [ann_lee] (py "Read-only file system") eq_refl
              ltac:(discriminate) eq_refl) as (H & _).
  exact H.
Defined.

Section Counters.
Context {World : Type} {env : Env World}.
Implicit Types (cfg : Settings) (st : state World) (w : World).
Implicit Types (records : list Record).

(** A batch without failure goes through, whatever the setting. *)
Lemma process_records_clean cfg (total : nat) records : forall i st,
  Forall (fun o => raised o = false) (outcomes cfg i records (world st)) ->
  process_records cfg total i records st =
  (Returned tt,
   Build_state _ (world_after cfg i records (world st))
     (message_queue st ++ loop_messages total i (length records))
     (success_count st + length records) (error_count st)
     (skipped_count st) (is_processing st)).
Proof.
  induction records as [|r rest IH]; intros i st Hok.
  - destruct st; cbn. rewrite app_nil_r, Nat.add_0_r. reflexivity.
  - rewrite process_records_cons, attempt_eq. cbn [outcomes world_after] in *.
    destruct (process cfg i r (world st)) as [[[]|e] w'] eqn:E.
    + cbn zeta. apply Forall_cons in Hok as [_ Hok].
      match goal with |- context [process_records _ _ _ _ ?s] =>
        rewrite (IH (S i) s Hok) end.
      cbn [world message_queue success_count error_count skipped_count
        is_processing snd length]. rewrite <- app_assoc.
      f_equal. f_equal; lia.
    + apply Forall_cons in Hok as [Hok _]. discriminate.
Qed.

(** The counters and the attempts made. *)
Lemma process_records_counts cfg (total : nat) records : forall i st,
  let st' := snd (process_records cfg total i records st) in
  exists n,
    (n <= length records)%nat
    /\ message_queue st' = message_queue st ++ loop_messages total i n
    /\ (success_count st' + error_count st'
        = success_count st + error_count st + n)%nat
    /\ (success_count st <= success_count st')%nat
    /\ (error_count st <= error_count st')%nat
    /\ (if skip_errors_var cfg
        then (skipped_count st' + error_count st
              = skipped_count st + error_count st')%nat
        else skipped_count st' = skipped_count st
             /\ (error_count st' <= error_count st + 1)%nat).
Proof.
  induction records as [|r rest IH]; intros i st.
  - exists 0%nat. cbn. rewrite app_nil_r. destruct (skip_errors_var cfg);
      repeat split; lia.
  - cbn zeta. rewrite process_records_cons, attempt_eq. cbn zeta.
    destruct (process cfg i r (world st)) as [[[]|e] w'] eqn:E.
    + match goal with |- context [process_records _ _ _ _ ?s] =>
        destruct (IH (S i) s) as (n & Hn & Hq & Hc & Hs & He & Hk) end.
      cbn [world message_queue success_count error_count skipped_count] in *.
      exists (S n). rewrite Hq, <- app_assoc. cbn [length].
      split; [lia|]. split; [reflexivity|]. split; [lia|].
      split; [lia|]. split; [lia|].
      destruct (skip_errors_var cfg); [lia | split; [tauto | lia]].
    + destruct (skip_errors_var cfg) eqn:Hskip.
      * match goal with |- context [process_records _ _ _ _ ?s] =>
          destruct (IH (S i) s) as (n & Hn & Hq & Hc & Hs & He & Hk) end.
        try rewrite Hskip in Hk.
        cbn [world message_queue success_count error_count skipped_count] in *.
        exists (S n). rewrite Hq, <- app_assoc. cbn [length].
        split; [lia|]. split; [reflexivity|]. repeat split; lia.
      * exists 1%nat. cbn [snd message_queue success_count error_count
          skipped_count length]. repeat split; lia.
Qed.

(** X10: in a run that has loaded a batch of N records, N not zero, and
    created the output directory, when no record fails the skip-errors
    setting plays no part: the run completes with succeeded = N, errored = 0
    and skipped = 0, reported in the completion status and the result
    message. *)
Theorem run_without_failure cfg w w1 w2 records :
  load_records cfg w = (Returned records, w1) ->
  records <> [] ->
  perform (os_makedirs (VStr (output_dir cfg))) w1 = (Returned tt, w2) ->
  failures cfg records w2 = 0%nat ->
  let N := length records in
  let after_loop := world_after cfg 0 records w2 in
  let st := snd (_mail_merge_worker cfg (initial_state w)) in
  success_count st = N /\ error_count st = 0%nat /\ skipped_count st = 0%nat
  /\ message_queue st
     = opening ++ loop_messages N 0 N ++ closing (elapsed after_loop) N 0 0
       ++ ready.
Proof.
  intros Hload Hne Hdir Hk N after_loop st.
  assert (Hok : Forall (fun o : outcome unit => raised o = false)
                  (outcomes cfg 0 records w2)).
  { unfold failures in Hk. apply Forall_forall. intros o Ho.
    destruct (raised o) eqn:E; [|reflexivity].
    assert (o ∈ filter (fun o : outcome unit => raised o = true)
                  (outcomes cfg 0 records w2))
      by (apply list_elem_of_filter; auto).
    destruct (filter _ _); [inversion H | discriminate]. }
  subst st. rewrite worker_eq, merge_eq. cbn zeta.
  cbn [initial_state world message_queue success_count error_count
    skipped_count is_processing app].
  rewrite Hload. destruct records as [|r rest]; [congruence|].
  cbn [length Nat.eqb]. rewrite Hdir.
  rewrite process_records_clean by exact Hok. rewrite report_eq.
  unfold finish, ready.
  cbn [fst snd world message_queue success_count error_count
    skipped_count is_processing Nat.add].
  repeat split. now rewrite <- !app_assoc.
Qed.

(** X11: in every run the succeeded and errored counters add up to the
    number of records attempted; with skip-errors the skipped counter equals
    the errored one, and without it nothing is skipped and at most one record
    is counted as errored. *)
Theorem counters_of_a_run cfg w :
  let st := snd (_mail_merge_worker cfg (initial_state w)) in
  exists total n last,
    (n <= total)%nat
    /\ message_queue st = opening ++ loop_messages total 0 n ++ last
    /\ ((exists elapsed_time,
           last = closing elapsed_time (success_count st) (error_count st)
                    (skipped_count st) ++ ready)
        \/ (exists e, last = failing e ++ ready))
    /\ (success_count st + error_count st = n)%nat
    /\ (if skip_errors_var cfg
        then skipped_count st = error_count st
        else skipped_count st = 0%nat /\ (error_count st <= 1)%nat).
Proof.
  intros st. subst st. rewrite worker_eq, merge_eq. cbn zeta.
  cbn [initial_state world message_queue success_count error_count
    skipped_count is_processing app].
  assert (Hzero : forall w' e,
    let st := finish (Build_state World w' (opening ++ failing e) 0 0 0 true) in
    exists total n last,
      (n <= total)%nat
      /\ message_queue st = opening ++ loop_messages total 0 n ++ last
      /\ ((exists elapsed_time,
             last = closing elapsed_time (success_count st) (error_count st)
                      (skipped_count st) ++ ready)
          \/ (exists e, last = failing e ++ ready))
      /\ (success_count st + error_count st = n)%nat
      /\ (if skip_errors_var cfg
          then skipped_count st = error_count st
          else skipped_count st = 0%nat /\ (error_count st <= 1)%nat)).
  { intros w' e. exists 0%nat, 0%nat, (failing e ++ ready).
    unfold finish, ready. cbn [message_queue success_count error_count
      skipped_count]. split; [lia|]. split; [now rewrite <- app_assoc|].
    split; [right; now exists e|]. split; [reflexivity|].
    destruct (skip_errors_var cfg); auto. }
  destruct (load_records cfg w) as [[records|e] w1]; [|apply Hzero].
  destruct (length records =? 0)%nat; [apply Hzero|].
  destruct (perform (os_makedirs (VStr (output_dir cfg))) w1) as [[[]|e] w2];
    [|apply Hzero].
  match goal with |- context [process_records ?c ?t ?i ?r ?s] =>
    destruct (process_records_counts c t r i s)
      as (n & Hn & Hq & Hc & _ & _ & Hk);
    destruct (process_records_shape c t r i s) as (n' & _ & Hq' & _ & Hr);
    destruct (process_records c t i r s) as [[[]|e] st'] eqn:E end;
    cbn [fst snd world message_queue success_count error_count skipped_count]
      in *.
  - rewrite report_eq. unfold finish, ready.
    cbn [fst snd world message_queue success_count error_count skipped_count].
    exists (length records), n,
      (closing (elapsed (world st')) (success_count st') (error_count st')
         (skipped_count st') ++ [status (py "Ready")]).
    split; [exact Hn|]. split; [rewrite Hq; now rewrite <- !app_assoc|].
    split; [left; eauto|]. split; [lia|].
    destruct (skip_errors_var cfg); lia.
  - unfold finish, ready.
    cbn [fst snd world message_queue success_count error_count skipped_count].
    exists (length records), n, (failing e ++ [status (py "Ready")]).
    split; [exact Hn|]. split; [rewrite Hq; now rewrite <- !app_assoc|].
    split; [right; eauto|]. split; [lia|].
    destruct (skip_errors_var cfg); lia.
Qed.

(** X12: a failure to remove the temporary document never fails the
    record: where every other call succeeds, the processing of a record
    returns. *)
Theorem removal_failure_is_harmless cfg (i : nat) (record : Record) w :
  (forall o w', (forall folder name, o <> os_remove folder name) ->
                fst (perform o w') = Returned tt) ->
  fst (process cfg i record w) = Returned tt.
Proof.
  intros Hok.
  assert (Hp : forall o w', (forall folder name, o <> os_remove folder name) ->
                 exists w'', perform o w' = (Returned tt, w'')).
  { intros o w' H. specialize (Hok o w' H).
    destruct (perform o w') as [r w'']. cbn in Hok. subst r. eauto. }
  unfold process.
  destruct (create_word_var cfg), (create_pdf_var cfg),
    (backup_existing_var cfg);
    cbv [mbind M_bind when swallow try_except mret M_ret];
    repeat match goal with
    | |- context [perform ?o ?x] =>
        lazymatch o with os_remove _ _ => fail | _ => idtac end;
        let w' := fresh "w" in
        destruct (Hp o x) as [w' ->]; [discriminate|]
    end;
    try reflexivity;
    match goal with |- context [perform ?o ?x] =>
      destruct (perform o x) as [[[]|e] w'] end; reflexivity.
Qed.

End Counters.

Lemma run_without_failure_witness :
  let st := snd (sample_run false [ann_lee; no_names]) in
  success_count st = 2%nat /\ error_count st = 0%nat.
Proof.
  destruct (run_without_failure (env := scripted [ann_lee; no_names])
              (sample_settings false) [] [] [os_makedirs (VStr (py "out"))]
              [ann_lee; no_names] eq_refl ltac:(discriminate) eq_refl eq_refl)
    as (Hs & He & _).
  split; [exact Hs | exact He].
Defined.

Lemma removal_failure_is_harmless_witness :
  process (env := faulty (Returned []) no_removal)
    (pdf_only_settings "patients.csv") 0 ann_lee []
  = (Returned tt,
     [DocxTemplate (py "letter.docx"); render ann_lee;
      os_makedirs (VStr (py "out")); os_makedirs (VStr (py "out"));
      save (VStr (py "out")) (py "_temp_0.docx");
      convert (VStr (py "out")) (py "_temp_0.docx") (VStr (py "out"))
        (py "Ann_Lee.pdf");
      os_remove (VStr (py "out")) (py "_temp_0.docx")]).
Proof.
  assert (H := removal_failure_is_harmless
                 (env := faulty (Returned []) no_removal)
                 (pdf_only_settings "patients.csv") 0 ann_lee []).
  destruct (process (env := faulty (Returned []) no_removal)
              (pdf_only_settings "patients.csv") 0 ann_lee []) as [r calls] eqn:E.
  cbn [fst] in H. rewrite H.
  - f_equal. vm_compute in E. now injection E.
  - intros o w' Ho. destruct o; try reflexivity. now destruct (Ho folder name).
Defined.

Lemma monitor_app (u : ui) (q1 q2 : list entry) :
  _monitor_queue u (q1 ++ q2) = _monitor_queue (_monitor_queue u q1) q2.
Proof. apply fold_left_app. Qed.

Lemma monitor_loop (u : ui) (total i n : nat) :
  status_var (_monitor_queue u (from_worker <$> loop_messages total i n))
  = match n with
    | O => status_var u
    | S m => processing_msg (i + m) total
    end
  /\ progress_var (_monitor_queue u (from_worker <$> loop_messages total i n))
     = match n with
       | O => progress_var u
       | S m => percent (i + m) total
       end
  /\ dialogs (_monitor_queue u (from_worker <$> loop_messages total i n))
     = dialogs u.
Proof.
  revert u i. induction n as [|n IH]; intros u i; [now cbn|].
  rewrite loop_messages_S, fmap_app, monitor_app.
  destruct (IH (_monitor_queue u
                  (from_worker <$> [status (processing_msg i total);
                                    progress (percent i total)])) (S i))
    as (Hs & Hp & Hd).
  rewrite Hs, Hp, Hd. destruct n as [|m].
  - cbn. now rewrite Nat.add_0_r.
  - cbn. now rewrite Nat.add_succ_r.
Qed.

Section Monitor.
Context {World : Type} {env : Env World}.

(** X14: once the monitor has emptied the queue of a run, in one poll or in
    several, the status reads [Ready] and the monitor has shown exactly one
    box: the result message of a run that completed, with the progress at
    100, or the error message of a run that aborted. *)
Theorem monitor_after_run (cfg : Settings) (w : World) (u : ui) :
  let st := snd (_mail_merge_worker cfg (initial_state w)) in
  let u' := _monitor_queue u (from_worker <$> message_queue st) in
  status_var u' = py "Ready"
  /\ ((exists elapsed_time,
         dialogs u'
         = dialogs u
           ++ [showinfo (py "Success")
                 (result_msg elapsed_time (success_count st) (error_count st)
                    (skipped_count st))]
         /\ (progress_var u' == 100)%Q)
      \/ (exists e,
            dialogs u'
            = dialogs u ++ [showerror (py "Error") (py "Mail merge failed: " ++ e)]))
  /\ (forall k,
        _monitor_queue
          (_monitor_queue u (take k (from_worker <$> message_queue st)))
          (drop k (from_worker <$> message_queue st)) = u').
Proof.
  intros st u'.
  assert (Hcut : forall k,
    _monitor_queue
      (_monitor_queue u (take k (from_worker <$> message_queue st)))
      (drop k (from_worker <$> message_queue st)) = u').
  { intros k. now rewrite <- monitor_app, take_drop. }
  destruct (worker_shape cfg w) as (_ & _ & total & n & Hn & Hq).
  cbn zeta in Hq. fold st in Hq. subst u'.
  destruct Hq as [[-> [el Hq]] | [e Hq]]; rewrite Hq in *;
    rewrite !fmap_app, !monitor_app in *.
  - destruct (monitor_loop (_monitor_queue u (from_worker <$> opening))
                total 0 total) as (_ & _ & Hd).
    remember (_monitor_queue (_monitor_queue u (from_worker <$> opening))
                (from_worker <$> loop_messages total 0 total)) as u1.
    unfold closing, ready, opening in *.
    cbn [fmap list_fmap _monitor_queue fold_left dispatch dialogs status_var
      progress_var] in *.
    split; [reflexivity|]. split; [|exact Hcut].
    left. exists el. rewrite Hd. split; reflexivity.
  - destruct (monitor_loop (_monitor_queue u (from_worker <$> opening))
                total 0 n) as (_ & _ & Hd).
    remember (_monitor_queue (_monitor_queue u (from_worker <$> opening))
                (from_worker <$> loop_messages total 0 n)) as u1.
    unfold failing, ready, opening in *.
    cbn [fmap list_fmap _monitor_queue fold_left dispatch dialogs status_var
      progress_var] in *.
    split; [reflexivity|]. split; [|exact Hcut].
    right. exists e. rewrite Hd. reflexivity.
Qed.

End Monitor.

(** *** The order on [str] *)

Lemma str_lt_irrefl (s : pystr) : str_lt s s = false.
Proof.
  induction s as [|a s IH]; [reflexivity|]. cbn [str_lt].
  now rewrite N.ltb_irrefl, N.eqb_refl, IH.
Qed.

Lemma str_lt_trans (s t u : pystr) :
  str_lt s t = true -> str_lt t u = true -> str_lt s u = true.
Proof.
  revert t u. induction s as [|a s IH]; intros [|b t] [|c u]; cbn [str_lt];
    try discriminate; try reflexivity.
  rewrite !orb_true_iff, !andb_true_iff, !N.ltb_lt, !N.eqb_eq.
  intros [H1 | [E1 H1]] [H2 | [E2 H2]]; subst;
    first [left; lia | right; split; [reflexivity | now apply (IH t u)]].
Qed.

Lemma str_lt_connex (s t : pystr) :
  str_lt s t = false -> str_lt t s = false -> s = t.
Proof.
  revert t. induction s as [|a s IH]; intros [|b t]; cbn [str_lt];
    try discriminate; try reflexivity.
  rewrite !orb_false_iff, !andb_false_iff, !N.ltb_ge, !N.eqb_neq.
  intros [H1 H1'] [H2 H2']. assert (a = b) by lia. subst b.
  f_equal. apply IH; tauto.
Qed.

Lemma str_lt_asym (s t : pystr) : str_lt s t = true -> str_lt t s = false.
Proof.
  intros H. destruct (str_lt t s) eqn:E; [|reflexivity].
  pose proof (str_lt_trans _ _ _ H E) as F. now rewrite str_lt_irrefl in F.
Qed.

Lemma str_le_total (s t : pystr) : str_le s t = true \/ str_le t s = true.
Proof.
  unfold str_le. destruct (str_lt t s) eqn:E; [right | now left].
  now rewrite (str_lt_asym _ _ E).
Qed.

Lemma str_le_trans (s t u : pystr) :
  str_le s t = true -> str_le t u = true -> str_le s u = true.
Proof.
  unfold str_le. rewrite !negb_true_iff. intros H1 H2.
  destruct (str_lt u s) eqn:E; [|reflexivity].
  destruct (str_lt t u) eqn:F.
  - now rewrite (str_lt_trans _ _ _ F E) in H1.
  - rewrite (str_lt_connex _ _ F H2) in H1. congruence.
Qed.

Lemma str_le_antisym (s t : pystr) :
  str_le s t = true -> str_le t s = true -> s = t.
Proof.
  unfold str_le. rewrite !negb_true_iff. intros H1 H2.
  now apply str_lt_connex.
Qed.

(** *** The sort *)

Lemma insert_reverse_perm (x : pystr) (l : list pystr) :
  insert_reverse x l ≡ₚ x :: l.
Proof.
  induction l as [|y l IH]; [reflexivity|]. cbn [insert_reverse].
  destruct (str_le y x); [reflexivity|]. rewrite IH. apply Permutation_swap.
Qed.

Lemma sort_reverse_perm (l : list pystr) : sort_reverse l ≡ₚ l.
Proof.
  induction l as [|x l IH]; [reflexivity|]. cbn [sort_reverse].
  now rewrite insert_reverse_perm, IH.
Qed.

Lemma insert_reverse_sorted (x : pystr) (l : list pystr) :
  StronglySorted descending l -> StronglySorted descending (insert_reverse x l).
Proof.
  induction 1 as [|y l Hl IH Hy]; [repeat constructor|].
  cbn [insert_reverse]. destruct (str_le y x) eqn:E.
  - constructor; [now constructor|]. constructor; [exact E|].
    eapply Forall_impl; [exact Hy|]. intros z Hz. unfold descending in *.
    now apply (str_le_trans z y x).
  - constructor; [exact IH|]. rewrite insert_reverse_perm.
    constructor; [|exact Hy]. unfold descending.
    destruct (str_le_total x y) as [H|H]; [exact H|congruence].
Qed.

Lemma sort_reverse_sorted (l : list pystr) :
  StronglySorted descending (sort_reverse l).
Proof.
  induction l as [|x l IH]; [constructor|]. now apply insert_reverse_sorted.
Qed.

(** The descending arrangement is the only one: any sort gives
    [sort_reverse]. *)
Lemma sort_reverse_unique (l sorted : list pystr) :
  sorted ≡ₚ l -> StronglySorted descending sorted -> sorted = sort_reverse l.
Proof.
  intros Hp Hs.
  assert (AntiSymm (=) descending)
    by (intros x y H1 H2; now apply str_le_antisym).
  apply (StronglySorted_unique descending); auto using sort_reverse_sorted.
  now rewrite sort_reverse_perm.
Qed.

(** *** The cleanup *)

Lemma old_logs_split (keep : nat) (names : list pystr) :
  let logs := filter (fun f => is_log f = true) names in
  take keep (sort_reverse logs) ++ old_logs keep names ≡ₚ logs.
Proof. cbn zeta. unfold old_logs. now rewrite take_drop, sort_reverse_perm. Qed.

Lemma old_logs_listed (keep : nat) (names : list pystr) (f : pystr) :
  f ∈ old_logs keep names -> f ∈ names /\ is_log f = true.
Proof.
  intros H. apply (subseteq_drop keep) in H.
  rewrite sort_reverse_perm in H. apply list_elem_of_filter in H. tauto.
Qed.

Lemma old_logs_nil (keep : nat) (names : list pystr) :
  (length (filter (fun f => is_log f = true) names) <= keep)%nat ->
  old_logs keep names = [].
Proof.
  intros H. unfold old_logs. apply drop_ge.
  now rewrite sort_reverse_perm.
Qed.

Section LogFacts.
Context {World : Type} {dir : LogDir World}.

(** X15: with no more than [keep_count] log files in the directory,
    [_cleanup_old_logs] removes nothing and prints nothing, whatever else the
    directory holds. *)
Theorem few_logs_untouched (log_dir : pystr) (keep : nat) (names : list pystr)
    (w w1 : World) :
  os_listdir log_dir w = (Returned names, w1) ->
  (length (filter (fun f => is_log f = true) names) <= keep)%nat ->
  _cleanup_old_logs log_dir keep w = (Returned tt, w1).
Proof.
  intros Hl Hn. unfold _cleanup_old_logs, try_except, mbind, M_bind.
  now rewrite Hl, old_logs_nil.
Qed.

End LogFacts.

Lemma kept_above_old (keep : nat) (names : list pystr) (k o : pystr) :
  k ∈ take keep (sort_reverse (filter (fun f => is_log f = true) names)) ->
  o ∈ old_logs keep names -> str_le o k = true.
Proof.
  pose proof (sort_reverse_sorted (filter (fun f => is_log f = true) names))
    as Hs.
  rewrite <- (take_drop keep (sort_reverse _)) in Hs.
  apply StronglySorted_app in Hs as (Hs & _ & _).
  intros Hk Ho. exact (Hs k o Hk Ho).
Qed.

(** X16: the names [_cleanup_old_logs] goes on to remove are log files of
    the listing, all but [keep_count] of them, and none of them comes after a
    log file that is kept in the order of [str]: the kept ones are the
    newest by name. *)
Theorem old_logs_are_the_oldest (keep : nat) (names : list pystr) :
  let logs := filter (fun f => is_log f = true) names in
  let kept := take keep (sort_reverse logs) in
  let old := old_logs keep names in
  kept ++ old ≡ₚ logs
  /\ length kept = min keep (length logs)
  /\ length old = (length logs - keep)%nat
  /\ Forall (fun f => f ∈ names /\ is_log f = true) old
  /\ (forall k o, k ∈ kept -> o ∈ old -> str_le o k = true).
Proof.
  intros logs kept old.
  split; [apply old_logs_split|].
  split; [subst kept; now rewrite length_take, sort_reverse_perm|].
  split; [subst old; unfold old_logs; now rewrite length_drop, sort_reverse_perm|].
  split; [apply Forall_forall; intros f; apply old_logs_listed|].
  intros k o. apply kept_above_old.
Qed.

Lemma filter_all (P : pystr -> Prop) `{!forall x, Decision (P x)}
    (l : list pystr) :
  Forall P l -> filter P l = l.
Proof.
  induction 1 as [|x l Hx Hl IH]; [reflexivity|].
  now rewrite filter_cons_True, IH.
Qed.

Lemma filter_none (P : pystr -> Prop) `{!forall x, Decision (P x)}
    (l : list pystr) :
  Forall (fun x => ~ P x) l -> filter P l = [].
Proof.
  induction 1 as [|x l Hx Hl IH]; [reflexivity|].
  now rewrite filter_cons_False.
Qed.

Lemma remove_each_plain (log_dir : pystr) (names : list pystr) :
  forall files printed,
  NoDup names -> (forall f, f ∈ names -> f ∈ files) ->
  remove_each (dir := plain_directory) log_dir names (files, printed)
  = (Returned tt, (filter (fun f => f ∉ names) files, printed)).
Proof.
  induction names as [|name rest IH]; intros files printed Hnd Hin.
  - cbn. rewrite filter_all; [reflexivity|].
    apply Forall_forall. intros f _. apply not_elem_of_nil.
  - apply NoDup_cons in Hnd as [Hname Hnd].
    cbn [remove_each]. unfold mbind, M_bind. cbn [os_unlink plain_directory fst snd].
    rewrite bool_decide_eq_true_2 by (apply Hin; left).
    rewrite IH; [|exact Hnd|].
    + f_equal. f_equal. rewrite list_filter_filter. apply list_filter_iff.
      intros f. rewrite not_elem_of_cons. tauto.
    + intros f Hf. apply list_elem_of_filter. split; [|apply Hin; now right].
      intros ->. contradiction.
Qed.

(** X17: in a directory of distinct names where removal works,
    [_cleanup_old_logs] returns without printing; every file that is not a
    log stays; [keep_count] log files are left, or all when there are fewer;
    and each log file left comes strictly after each one removed. *)
Theorem cleanup_keeps_the_newest (log_dir : pystr) (keep : nat)
    (files printed : list pystr) :
  NoDup files ->
  let old := old_logs keep files in
  let left_over := filter (fun f => f ∉ old) files in
  _cleanup_old_logs (dir := plain_directory) log_dir keep (files, printed)
  = (Returned tt, (left_over, printed))
  /\ (forall f, f ∈ files -> is_log f = false -> f ∈ left_over)
  /\ length (filter (fun f => is_log f = true) left_over)
     = min keep (length (filter (fun f => is_log f = true) files))
  /\ (forall k o,
        k ∈ left_over -> is_log k = true -> o ∈ old -> str_lt o k = true).
Proof.
  intros Hnd old left_over.
  pose proof (old_logs_split keep files) as Hsplit. cbn zeta in Hsplit.
  fold old in Hsplit.
  set (logs := filter (fun f => is_log f = true) files) in *.
  set (kept := take keep (sort_reverse logs)) in *.
  assert (Hlogs : NoDup (kept ++ old)).
  { rewrite Hsplit. now apply NoDup_filter. }
  apply NoDup_app in Hlogs as (Hk & Hdisj & Ho).
  assert (Hkept : filter (fun f => is_log f = true) left_over ≡ₚ kept).
  { subst left_over. rewrite list_filter_filter.
    rewrite (list_filter_iff _ (fun f => (f ∉ old) /\ is_log f = true))
      by (intros; tauto).
    rewrite <- list_filter_filter. fold logs. rewrite <- Hsplit, filter_app.
    rewrite (filter_all _ kept) by (apply Forall_forall; exact Hdisj).
    rewrite (filter_none _ old); [now rewrite app_nil_r|].
    apply Forall_forall. intros f Hf Hn. contradiction. }
  split; [|split; [|split]].
  - unfold _cleanup_old_logs, try_except, mbind, M_bind.
    cbn [os_listdir plain_directory fst]. fold old.
    rewrite remove_each_plain; [reflexivity | exact Ho |].
    intros f Hf. now apply old_logs_listed in Hf.
  - intros f Hf Hlog. apply list_elem_of_filter. split; [|exact Hf].
    intros Hold. apply old_logs_listed in Hold as [_ Hold]. congruence.
  - rewrite Hkept. subst kept. now rewrite length_take, sort_reverse_perm.
  - intros k o Hk' Hlog Hold.
    assert (k ∈ kept).
    { rewrite <- Hkept. apply list_elem_of_filter. split; assumption. }
    pose proof (kept_above_old keep files k o H Hold) as Hle.
    destruct (str_lt o k) eqn:E; [reflexivity|].
    unfold str_le in Hle. apply negb_true_iff in Hle.
    pose proof (str_lt_connex _ _ E Hle) as ->.
    now destruct (Hdisj k H).
Qed.

Lemma few_logs_untouched_witness :
  _cleanup_old_logs (dir := plain_directory) (py "logs") 10
    (sample_directory, [])
  = (Returned tt, (sample_directory, [])).
Proof.
  apply (few_logs_untouched (dir := plain_directory) (py "logs") 10
           sample_directory (sample_directory, []) (sample_directory, [])
           eq_refl).
  vm_compute. lia.
Defined.

Lemma cleanup_keeps_the_newest_witness :
  _cleanup_old_logs (dir := plain_directory) (py "logs") 2
    (sample_directory, [])
  = (Returned tt,
     ([py "notes.txt"; py "mailmerge_20240301_090000.log";
       py "mailmerge_20240201_090000.log"; py "mailmerge_old.txt"], [])).
Proof.
  assert (Hnd : NoDup sample_directory) by (apply (bool_decide_unpack (NoDup sample_directory)); vm_compute;
        exact I).
  destruct (cleanup_keeps_the_newest (py "logs") 2 sample_directory [] Hnd)
    as (H & _).
  rewrite H. vm_compute. reflexivity.
Defined.




(** *** Replacing one character *)

Lemma replace_char (a : N) (new s : pystr) :
  replace s [a] new = flat_map (fun c => if c =? a then new else [c]) s.
Proof.
  unfold replace. induction s as [|c s IH]; [reflexivity|].
  cbn [replace_from startswith flat_map length Nat.pred].
  rewrite (N.eqb_sym a c). destruct (c =? a); cbn [andb].
  - now rewrite IH.
  - now rewrite IH.
Qed.

Lemma replace_char_gone (a b : N) (s : pystr) :
  a <> b -> Forall (fun c => c <> a) (replace s [a] [b]).
Proof.
  intros Hab. rewrite replace_char. induction s as [|c s IH]; [constructor|].
  cbn [flat_map]. destruct (c =? a) eqn:E; cbn [app].
  - constructor; [congruence | exact IH].
  - apply N.eqb_neq in E. constructor; [exact E | exact IH].
Qed.

Lemma replace_char_absent (a : N) (new s : pystr) :
  Forall (fun c => c <> a) s -> replace s [a] new = s.
Proof.
  intros H. rewrite replace_char. induction H as [|c s Hc Hs IH]; [reflexivity|].
  cbn [flat_map]. apply N.eqb_neq in Hc. now rewrite Hc, IH.
Qed.

Lemma replace_char_length (a b : N) (s : pystr) :
  length (replace s [a] [b]) = length s.
Proof.
  rewrite replace_char. induction s as [|c s IH]; [reflexivity|].
  cbn [flat_map]. destruct (c =? a); cbn; now rewrite IH.
Qed.

(** X18: the file name of v1, when the two names are strings, holds no
    space, is not empty and is not the lone underscore. *)
Theorem v1_stem_has_no_space (record : Record) (i : nat) (stem : pystr) :
  V1.base_filename record i = Some stem ->
  Forall (fun c => c <> chr " ") stem /\ stem <> [] /\ stem <> py "_".
Proof.
  unfold V1.base_filename. intros H.
  destruct (V1.stripped record (py "First Name")) as [first_name|];
    [|discriminate].
  destruct (V1.stripped record (py "Last Name")) as [last_name|];
    [|discriminate].
  cbn in H. injection H as <-.
  destruct (is_empty _ || pystr_eqb _ _) eqn:E.
  - destruct (fallback_stem_head i) as [t Ht]. rewrite Ht.
    split; [|split; discriminate].
    rewrite <- Ht. unfold fallback_stem. apply Forall_app. split.
    + repeat constructor; discriminate.
    + eapply Forall_impl; [apply digits_are_digits|].
      cbn. intros c Hc ->. vm_compute in Hc. destruct Hc as [Hc _]. now apply Hc.
  - apply orb_false_iff in E as [E1 E2]. split; [|split].
    + apply (replace_char_gone (chr " ") (chr "_")). discriminate.
    + intros H. now rewrite H in E1.
    + intros H. rewrite H in E2. discriminate.
Qed.

Lemma v1_stem_has_no_space_witness :
  V1.base_filename
    (<[py "First Name" := VStr (py " Mary Ann ")]> ann_lee) 0
  = Some (py "Mary_Ann_Lee")
  /\ Forall (fun c => c <> chr " ") (py "Mary_Ann_Lee").
Proof.
  assert (E : V1.base_filename
                (<[py "First Name" := VStr (py " Mary Ann ")]> ann_lee) 0
              = Some (py "Mary_Ann_Lee")) by reflexivity.
  split; [exact E|].
  exact (proj1 (v1_stem_has_no_space _ _ _ E)).
Defined.

(** X19: for names that, stripped of white space, are clean, hold no space
    and (the first) no opening brace, and are not both underscores only, v1
    and v2 with its default pattern give the same stem: first name,
    underscore, last name. *)
Theorem versions_agree_on_plain_names (record : Record) (first last : pystr)
    (i : nat) :
  record !! py "First Name" = Some (VStr first) ->
  record !! py "Last Name" = Some (VStr last) ->
  let a := strip isspace first in
  let b := strip isspace last in
  clean_name a -> clean_name b ->
  Forall (fun c => c <> chr " ") a -> Forall (fun c => c <> chr " ") b ->
  Forall (fun c => c <> chr "{") a ->
  ~ (only_underscores a /\ only_underscores b) ->
  V1.base_filename record i = Some (a ++ py "_" ++ b)
  /\ _generate_filename record default_pattern i = a ++ py "_" ++ b.
Proof.
  intros Hf Hl a b Ha Hb Hsa Hsb Hbrace Hu. split.
  - unfold V1.base_filename, V1.stripped. rewrite Hf, Hl.
    cbn [default from_option id mbind option_bind].
    fold a b. change (py " ") with [chr " "]. rewrite replace_char_absent.
    2:{ apply Forall_app. split; [exact Hsa|]. apply Forall_app.
        split; [repeat constructor; discriminate | exact Hsb]. }
    destruct Ha as (Hne & _). destruct a as [|c a']; [congruence|].
    cbn [app is_empty orb].
    destruct (pystr_eqb _ _) eqn:E; [|reflexivity].
    apply bool_decide_eq_true in E.
    destruct a' as [|c' a'']; [|destruct a''; discriminate].
    destruct b as [|d b']; [now destruct Hb | discriminate].
  - rewrite (default_pattern_stem record (VStr first) (VStr last) i Hf Hl);
      cbn [str]; fold a b;
      rewrite ?(clean_filename_fixes a Ha), ?(clean_filename_fixes b Hb);
      [|exact Hbrace].
    now rewrite decide_False.
Qed.

Lemma versions_agree_on_plain_names_witness :
  V1.base_filename ann_lee 4 = Some (py "Ann_Lee")
  /\ _generate_filename ann_lee default_pattern 4 = py "Ann_Lee".
Proof.
  apply (versions_agree_on_plain_names ann_lee (py "Ann") (py "Lee") 4
           eq_refl eq_refl).
  - split; [discriminate|]. split; [repeat constructor|]. split.
    + intros c t [= <- _]. reflexivity.
    + intros t c E. apply (f_equal (@rev N)) in E.
      rewrite rev_app_distr in E. injection E as <- _. reflexivity.
  - split; [discriminate|]. split; [repeat constructor|]. split.
    + intros c t [= <- _]. reflexivity.
    + intros t c E. apply (f_equal (@rev N)) in E.
      rewrite rev_app_distr in E. injection E as <- _. reflexivity.
  - repeat constructor; discriminate.
  - repeat constructor; discriminate.
  - repeat constructor; discriminate.
  - intros [H _]. apply Forall_cons in H as [H _]. discriminate.
Defined.

Section BackupFacts.
Context {World : Type} {fs : Files World}.

Lemma backup_one_returns (folder base timestamp ext : pystr) (w : World) :
  fst (Backup.backup_one (VStr folder) base timestamp ext w) = Returned tt.
Proof.
  unfold Backup.backup_one, swallow, try_except.
  destruct (os_path_exists folder (Backup.file_name base ext) w);
    [|reflexivity].
  now destruct (os_rename _ _ _ w) as [[[]|e] w'].
Qed.

(** X20: with folders that are strings, [_backup_existing_files] never
    raises, whatever the renames do; when neither the Word nor the PDF file
    exists it leaves the world as it is; and when the renaming of the Word
    file raises, the PDF half still runs: a PDF file that exists is renamed,
    in the world the failed renaming left. *)
Theorem backup_never_fails (doc_folder pdf_folder base : pystr) (w : World) :
  fst (Backup._backup_existing_files (VStr doc_folder) (VStr pdf_folder) base w)
  = Returned tt
  /\ (os_path_exists doc_folder (Backup.file_name base (py ".docx")) w = false ->
      os_path_exists pdf_folder (Backup.file_name base (py ".pdf")) w = false ->
      Backup._backup_existing_files (VStr doc_folder) (VStr pdf_folder) base w
      = (Returned tt, w))
  /\ (forall e w1,
        os_path_exists doc_folder (Backup.file_name base (py ".docx")) w = true ->
        os_rename doc_folder (Backup.file_name base (py ".docx"))
          (Backup.backup_name base (now w) (py ".docx")) w
        = (Raised e, w1) ->
        os_path_exists pdf_folder (Backup.file_name base (py ".pdf")) w1 = true ->
        snd (Backup._backup_existing_files (VStr doc_folder) (VStr pdf_folder)
               base w)
        = snd (os_rename pdf_folder (Backup.file_name base (py ".pdf"))
                 (Backup.backup_name base (now w) (py ".pdf")) w1)).
Proof.
  unfold Backup._backup_existing_files, mbind, M_bind. split; [|split].
  - pose proof (backup_one_returns doc_folder base (now w) (py ".docx") w) as H.
    destruct (Backup.backup_one (VStr doc_folder) _ _ _ w) as [r w1].
    cbn [fst] in H. subst r. apply backup_one_returns.
  - intros H1 H2. unfold Backup.backup_one. now rewrite H1, H2.
  - intros e w1 H1 Hfail H2. unfold Backup.backup_one, swallow, try_except.
    rewrite H1, Hfail. cbn [mret M_ret]. rewrite H2.
    now destruct (os_rename pdf_folder _ _ w1) as [[[]|e'] w2].
Qed.

End BackupFacts.

Lemma backup_never_fails_witness :
  let w' :=
    snd (Backup._backup_existing_files (fs := read_only (py "docs"))
           (VStr (py "docs")) (VStr (py "pdfs")) (py "Ann_Lee") two_files) in
  fst w' !! (py "docs", py "Ann_Lee.docx") = Some (py "old letter")
  /\ fst w' !! (py "pdfs", py "Ann_Lee.pdf") = None
  /\ fst w' !! (py "pdfs", py "Ann_Lee_backup_20240401_090000.pdf")
     = Some (py "old pdf").
Proof.
  destruct (backup_never_fails (fs := read_only (py "docs")) (py "docs")
              (py "pdfs") (py "Ann_Lee") two_files) as (_ & _ & H).
  cbv zeta.
  rewrite (H (py "Permission denied") two_files eq_refl eq_refl eq_refl).
  vm_compute. repeat split.
Defined.

Lemma docx_is_not_pdf (base : pystr) :
  Backup.file_name base (py ".docx") <> Backup.file_name base (py ".pdf").
Proof. intros H. apply app_inv_head in H. discriminate. Qed.

Lemma target_is_not_backup (base timestamp ext ext' : pystr) (c : N)
    (rest : pystr) :
  ext = c :: rest -> c <> chr "_" ->
  Backup.file_name base ext <> Backup.backup_name base timestamp ext'.
Proof.
  intros -> Hc H. unfold Backup.backup_name, Backup.file_name in H.
  apply app_inv_head in H. injection H as H _. contradiction.
Qed.

Lemma backups_differ (base timestamp : pystr) :
  Backup.backup_name base timestamp (py ".docx")
  <> Backup.backup_name base timestamp (py ".pdf").
Proof.
  unfold Backup.backup_name. intros H.
  do 3 apply app_inv_head in H. discriminate.
Qed.

Lemma backup_one_on_disk (files : gmap (pystr * pystr) pystr)
    (time folder base timestamp ext : pystr) :
  Backup.backup_one (fs := on_disk) (VStr folder) base timestamp ext
    (files, time)
  = (Returned tt,
     (set_aside (folder, Backup.file_name base ext)
        (folder, Backup.backup_name base timestamp ext) files, time)).
Proof.
  unfold Backup.backup_one, swallow, try_except, set_aside.
  cbn [os_path_exists os_rename on_disk fst snd].
  match goal with |- context [bool_decide (is_Some ?x)] =>
    destruct x as [text|] eqn:E end.
  - now rewrite bool_decide_eq_true_2 by eauto.
  - now rewrite bool_decide_eq_false_2 by (now intros [? ?]).
Qed.

Lemma backup_on_disk (files : gmap (pystr * pystr) pystr)
    (time doc_folder pdf_folder base : pystr) :
  Backup._backup_existing_files (fs := on_disk) (VStr doc_folder)
    (VStr pdf_folder) base (files, time)
  = (Returned tt,
     (set_aside (pdf_folder, Backup.file_name base (py ".pdf"))
        (pdf_folder, Backup.backup_name base time (py ".pdf"))
        (set_aside (doc_folder, Backup.file_name base (py ".docx"))
           (doc_folder, Backup.backup_name base time (py ".docx")) files),
      time)).
Proof.
  unfold Backup._backup_existing_files, mbind, M_bind.
  cbn [now on_disk snd]. now rewrite !backup_one_on_disk.
Qed.

Lemma set_aside_target (target backup : pystr * pystr)
    (files : gmap (pystr * pystr) pystr) :
  target <> backup -> set_aside target backup files !! target = None.
Proof.
  intros H. unfold set_aside. destruct (files !! target) eqn:E; [|exact E].
  rewrite lookup_insert_ne by congruence. apply lookup_delete_eq.
Qed.

Lemma set_aside_backup (target backup : pystr * pystr)
    (files : gmap (pystr * pystr) pystr) :
  set_aside target backup files !! backup
  = match files !! target with
    | Some text => Some text
    | None => files !! backup
    end.
Proof.
  unfold set_aside. destruct (files !! target) eqn:E; [|reflexivity].
  apply lookup_insert_eq.
Qed.

Lemma set_aside_other (target backup path : pystr * pystr)
    (files : gmap (pystr * pystr) pystr) :
  path <> target -> path <> backup ->
  set_aside target backup files !! path = files !! path.
Proof.
  intros H1 H2. unfold set_aside. destruct (files !! target) eqn:E;
    [|reflexivity].
  rewrite lookup_insert_ne by congruence. now rewrite lookup_delete_ne by congruence.
Qed.

(** X21: on a disk where renaming works, after [_backup_existing_files] the
    Word and the PDF path are free, the text each held is under the backup
    name [<stem>_backup_<timestamp>] with the same extension, and every other
    file is as before. *)
Theorem backup_frees_the_targets (files : gmap (pystr * pystr) pystr)
    (time doc_folder pdf_folder base : pystr) :
  let doc := (doc_folder, Backup.file_name base (py ".docx")) in
  let pdf := (pdf_folder, Backup.file_name base (py ".pdf")) in
  let doc_backup := (doc_folder, Backup.backup_name base time (py ".docx")) in
  let pdf_backup := (pdf_folder, Backup.backup_name base time (py ".pdf")) in
  let after :=
    fst (snd (Backup._backup_existing_files (fs := on_disk) (VStr doc_folder)
                (VStr pdf_folder) base (files, time))) in
  after !! doc = None /\ after !! pdf = None
  /\ after !! doc_backup
     = match files !! doc with
       | Some text => Some text
       | None => files !! doc_backup
       end
  /\ after !! pdf_backup
     = match files !! pdf with
       | Some text => Some text
       | None => files !! pdf_backup
       end
  /\ (forall path,
        path <> doc -> path <> pdf -> path <> doc_backup ->
        path <> pdf_backup -> after !! path = files !! path).
Proof.
  intros doc pdf doc_backup pdf_backup after.
  assert (N1 : doc <> pdf)
    by (intros [= _ H]; now apply docx_is_not_pdf in H).
  assert (Hdot : chr "." <> chr "_") by discriminate.
  assert (N2 : doc <> doc_backup).
  { intros [= H].
    exact (target_is_not_backup base time _ _ _ (py "docx") eq_refl Hdot H). }
  assert (N3 : doc <> pdf_backup).
  { intros [= _ H].
    exact (target_is_not_backup base time _ _ _ (py "docx") eq_refl Hdot H). }
  assert (N4 : pdf <> doc_backup).
  { intros [= _ H].
    exact (target_is_not_backup base time _ _ _ (py "pdf") eq_refl Hdot H). }
  assert (N5 : pdf <> pdf_backup).
  { intros [= H].
    exact (target_is_not_backup base time _ _ _ (py "pdf") eq_refl Hdot H). }
  assert (N6 : doc_backup <> pdf_backup)
    by (intros [= _ H]; now apply backups_differ in H).
  subst after. rewrite backup_on_disk. cbn [fst snd].
  fold doc pdf doc_backup pdf_backup.
  clearbody doc pdf doc_backup pdf_backup.
  split; [|split; [|split; [|split]]].
  - rewrite set_aside_other by congruence. now apply set_aside_target.
  - now apply set_aside_target.
  - rewrite set_aside_other by congruence. apply set_aside_backup.
  - rewrite set_aside_backup, !set_aside_other by congruence. reflexivity.
  - intros path H1 H2 H3 H4. now rewrite !set_aside_other by congruence.
Qed.

Lemma log_file_is_log (timestamp : pystr) :
  is_log (py "mailmerge_" ++ timestamp ++ py ".log") = true.
Proof.
  unfold is_log. apply andb_true_iff. split.
  - apply startswith_iff. eauto.
  - apply endswith_iff. exists (py "mailmerge_" ++ timestamp).
    now rewrite <- app_assoc.
Qed.

(** X22: [_setup_logging] removes the old logs before the new log file is
    opened.  In a directory of distinct names that does not hold the new
    name yet, it returns, leaves what the cleanup keeps followed by the new
    log, and the directory then holds one log more than the ten the cleanup
    keeps: eleven, as soon as there were ten. *)
Theorem setup_logging_leaves_one_more (stamp : pystr)
    (files printed : list pystr) :
  NoDup files ->
  py "mailmerge_" ++ stamp ++ py ".log" ∉ files ->
  let new_log := py "mailmerge_" ++ stamp ++ py ".log" in
  let logs := filter (fun f => is_log f = true) files in
  let run := _setup_logging (logging := plain_logging stamp) (files, printed) in
  fst run = Returned tt
  /\ fst (snd run) = filter (fun f => f ∉ old_logs 10 files) files ++ [new_log]
  /\ length (filter (fun f => is_log f = true) (fst (snd run)))
     = S (min 10 (length logs)).
Proof.
  intros Hnd Hnew new_log logs run.
  destruct (cleanup_keeps_the_newest (expanduser (Logging := plain_logging stamp)
                                        (py "~/Documents/MailMergeLogs"))
              10 files printed Hnd) as (Hrun & _ & Hlen & _).
  assert (E : run = (Returned tt,
                     (filter (fun f => f ∉ old_logs 10 files) files ++ [new_log],
                      printed))).
  { subst run. unfold _setup_logging, mbind, M_bind.
    cbn [makedirs_exist_ok strftime_now basicConfig plain_logging logging_dir
         expanduser].
    cbn [expanduser plain_logging] in Hrun. rewrite Hrun. cbn [fst snd].
    rewrite bool_decide_eq_false_2; [reflexivity|].
    intros H. apply list_elem_of_filter in H as [_ H]. contradiction. }
  rewrite E. cbn [fst snd]. split; [reflexivity|]. split; [reflexivity|].
  rewrite filter_app, length_app, Hlen.
  rewrite filter_cons_True by apply log_file_is_log.
  rewrite filter_nil. cbn [length]. subst logs. lia.
Qed.

Lemma setup_logging_leaves_one_more_witness :
  fst (snd (_setup_logging (logging := plain_logging (py "20240401_090000"))
              (sample_directory, [])))
  = sample_directory ++ [py "mailmerge_20240401_090000.log"].
Proof.
  assert (Hnd : NoDup sample_directory)
    by (apply (bool_decide_unpack (NoDup sample_directory)); vm_compute;
        exact I).
  assert (Hnew : py "mailmerge_" ++ py "20240401_090000" ++ py ".log"
                 ∉ sample_directory)
    by (apply (bool_decide_unpack (_ ∉ sample_directory)); vm_compute; exact I).
  destruct (setup_logging_leaves_one_more (py "20240401_090000")
              sample_directory [] Hnd Hnew) as (_ & H & _).
  rewrite H. vm_compute. reflexivity.
Defined.

Section SaveSettingsFacts.
Context {World : Type} {file : SettingsFile World}.

Lemma save_settings_off (cfg : Settings) (settings : settings_dict) (w : World) :
  truth (default (JBool true) (settings !! py "auto_save_settings")) = false ->
  _save_settings cfg (settings, w) = (Returned tt, (settings, w)).
Proof. intros H. unfold _save_settings. now rewrite H. Qed.

(** X23: [_save_settings] always returns, also when the writing raises,
    and a key other than the five of its [update] keeps the value it had in
    [self.settings]: what the window holds for the file name pattern, the
    preview rows or the auto-save box is never stored. *)
Theorem save_settings_keeps_other_keys (cfg : Settings)
    (settings : settings_dict) (w : World) (key : pystr) :
  key ∉ saved_keys ->
  let run := _save_settings cfg (settings, w) in
  fst run = Returned tt /\ fst (snd run) !! key = settings !! key.
Proof.
  intros Hkey run. subst run. unfold _save_settings.
  destruct (negb _); [now split|].
  unfold swallow, try_except. cbn [fst snd].
  destruct (json_dump _ w) as [[[]|e] w'] eqn:E;
    cbn [fst snd mret M_ret]; (split; [reflexivity|]);
    repeat (rewrite lookup_insert_ne;
            [|intros <-; apply Hkey; unfold saved_keys;
              repeat first [apply list_elem_of_here | apply list_elem_of_further]]);
    reflexivity.
Qed.

(** X24: once [auto_save_settings] is false in [self.settings], no call of
    [_save_settings], with whatever choices, changes [self.settings] or
    writes the file: the key is not among those the method updates. *)
Theorem auto_save_off_is_permanent (cfgs : list Settings)
    (settings : settings_dict) (w : World) :
  truth (default (JBool true) (settings !! py "auto_save_settings")) = false ->
  save_each cfgs (settings, w) = (Returned tt, (settings, w)).
Proof.
  intros H. induction cfgs as [|cfg rest IH]; [reflexivity|].
  cbn [save_each]. unfold mbind, M_bind.
  now rewrite save_settings_off.
Qed.

End SaveSettingsFacts.

(** X25: with [auto_save_settings] true and a file that can be written,
    the file holds [self.settings] after [_save_settings], the five keys
    hold the paths and the two boxes of the window, and no key is lost. *)
Theorem saved_settings_hold_the_choices (cfg : Settings)
    (settings : settings_dict) (before : option settings_dict) :
  truth (default (JBool true) (settings !! py "auto_save_settings")) = true ->
  let run := _save_settings (file := writable_file) cfg (settings, before) in
  let settings' := fst (snd run) in
  snd (snd run) = Some settings'
  /\ settings' !! py "last_template" = Some (JString (template_path cfg))
  /\ settings' !! py "last_data_source" = Some (JString (data_source_path cfg))
  /\ settings' !! py "last_output_dir" = Some (JString (output_dir cfg))
  /\ settings' !! py "create_word" = Some (JBool (create_word_var cfg))
  /\ settings' !! py "create_pdf" = Some (JBool (create_pdf_var cfg))
  /\ dom settings' = dom settings ∪ list_to_set saved_keys.
Proof.
  intros H run settings'. subst settings' run. unfold _save_settings.
  rewrite H. cbn [negb swallow try_except json_dump writable_file fst snd].
  split; [reflexivity|].
  repeat (split; [now simplify_map_eq|]).
  rewrite !dom_insert_L. unfold saved_keys. cbn [list_to_set].
  apply set_eq. intros x.
  rewrite !elem_of_union, !elem_of_singleton, elem_of_empty. tauto.
Qed.

Lemma save_settings_keeps_other_keys_witness :
  fst (snd (_save_settings (file := writable_file) (sample_settings true)
              (default_settings (py "out"), None)))
    !! py "filename_pattern"
  = Some (JString (py "{First Name}_{Last Name}")).
Proof.
  assert (Hkey : py "filename_pattern" ∉ saved_keys)
    by (apply (bool_decide_unpack (_ ∉ saved_keys)); vm_compute; exact I).
  destruct (save_settings_keeps_other_keys (file := writable_file)
              (sample_settings true) (default_settings (py "out")) None
              (py "filename_pattern") Hkey) as [_ H].
  rewrite H. reflexivity.
Defined.

Lemma auto_save_off_is_permanent_witness :
  save_each (file := writable_file) [sample_settings true; sample_settings false]
    (<[py "auto_save_settings" := JBool false]> (default_settings (py "out")),
     None)
  = (Returned tt,
     (<[py "auto_save_settings" := JBool false]> (default_settings (py "out")),
      None)).
Proof.
  apply (auto_save_off_is_permanent (file := writable_file)).
  reflexivity.
Defined.

Lemma saved_settings_hold_the_choices_witness :
  snd (snd (_save_settings (file := writable_file) (sample_settings true)
              (default_settings (py "out"), None)))
  = Some (fst (snd (_save_settings (file := writable_file) (sample_settings true)
                      (default_settings (py "out"), None)))).
Proof.
  destruct (saved_settings_hold_the_choices (sample_settings true)
              (default_settings (py "out")) None eq_refl) as [H _].
  exact H.
Defined.

Section V1Facts.
Context {World : Type} {env : Env World} {host : V1.Host World}.
Implicit Types (cfg : Settings) (record : Record) (st : V1.state World).


(** X26: v1 passes over a record with a required field that is missing
    or false: after the two [root.after] calls of the pass nothing else is
    called, no template is loaded and nothing is saved, the counter stays, and
    the loop goes on. *)
Theorem v1_incomplete_record_is_passed_over cfg i record st :
  V1.missing_fields record <> [] ->
  let run := V1.attempt cfg i record st in
  fst run = Returned tt
  /\ V1.success_count (snd run) = V1.success_count st
  /\ V1.is_processing (snd run) = V1.is_processing st
  /\ V1.world (snd run)
     = snd ((V1.root_after V1.loop_status;;
             V1.root_after V1.loop_progress) (V1.world st)).
Proof.
  intros Hm. cbv zeta.
  unfold V1.attempt, try_except, mbind, M_bind, V1.lift.
  cbn [V1.world V1.success_count V1.is_processing].
  destruct (V1.root_after V1.loop_status (V1.world st)) as [[[]|e1] w1];
    cbn [fst snd V1.world V1.success_count V1.is_processing mret M_ret];
    [|now auto].
  destruct (V1.root_after V1.loop_progress w1) as [[[]|e2] w2];
    cbn [fst snd V1.world V1.success_count V1.is_processing mret M_ret];
    [|now auto].
  destruct (V1.missing_fields record) as [|f fs]; [contradiction|].
  cbn [fst snd V1.world V1.success_count V1.is_processing mret M_ret].
  now auto.
Qed.


(** X28: when [root.after] does not raise, the worker of v1 returns with
    [is_processing] false, whatever else fails. *)
Theorem v1_worker_resets_is_processing cfg st :
  (forall r w, fst (V1.root_after r w) = Returned tt) ->
  let run := V1._mail_merge_worker cfg st in
  fst run = Returned tt /\ V1.is_processing (snd run) = false.
Proof.
  intros Hafter. cbv zeta.
  assert (Ha : forall r st0, exists w,
             V1.lift (V1.root_after r) st0
             = (Returned tt,
                {| V1.world := w;
                   V1.success_count := V1.success_count st0;
                   V1.is_processing := V1.is_processing st0 |})).
  { intros r st0. unfold V1.lift. specialize (Hafter r (V1.world st0)).
    destruct (V1.root_after r (V1.world st0)) as [[[]|e] w];
      [eauto | discriminate]. }
  unfold V1._mail_merge_worker, V1.try_finally_raising, try_except.
  destruct (V1.merge cfg st) as [[[]|e] st1].
  - unfold mbind, M_bind.
    destruct (Ha V1.enable_run_button st1) as [w ->].
    unfold V1.set_is_processing. cbn [fst snd V1.is_processing]. now split.
  - cbv [mbind M_bind].
    repeat match goal with
      | |- context [V1.lift (V1.root_after ?r) ?s] =>
          let w := fresh "w" in destruct (Ha r s) as [w ->]
      end.
    unfold V1.set_is_processing. cbn [fst snd V1.is_processing]. now split.
Qed.


End V1Facts.

Lemma v1_incomplete_record_is_passed_over_witness :
  snd (V1.attempt (env := V1.desk []) (host := V1.window)
         (sample_settings true) 0 V1.record_without_dob
         (V1.initial_state ([], [])))
  = {| V1.world := ([], [V1.loop_status; V1.loop_progress]);
       V1.success_count := 0;
       V1.is_processing := true |}.
Proof.
  assert (Hm : V1.missing_fields (host := V1.window) V1.record_without_dob
               <> []) by (vm_compute; discriminate).
  destruct (v1_incomplete_record_is_passed_over (env := V1.desk [])
              (sample_settings true) 0 V1.record_without_dob
              (V1.initial_state ([], [])) Hm) as (_ & Hc & Hp & Hw).
  destruct (V1.attempt _ _ _ _) as [r [w c p]].
  cbn [snd V1.world V1.success_count V1.is_processing] in *.
  now rewrite Hc, Hp, Hw.
Defined.

Lemma v1_worker_resets_is_processing_witness :
  V1.is_processing
    (snd (V1._mail_merge_worker (env := V1.desk []) (host := V1.window)
            (sample_settings true) (V1.initial_state ([], []))))
  = false.
Proof.
  destruct (v1_worker_resets_is_processing (env := V1.desk [])
              (host := V1.window) (sample_settings true)
              (V1.initial_state ([], []))
              (fun r w => eq_refl)) as [_ H].
  exact H.
Defined.

